(** * DarkNet (pytorch/models/darknet.py): architecture assembly, verified

    A shallow embedding of the DarkNet model definition.  The network is a
    declarative assembly of framework layers, so the embedding keeps the
    layers as records holding their constructor arguments, the containers
    ([nn.Sequential]) as ordered name/module tables updated by
    [add_module], and the factory [get_darknet] as a function into an
    exception monad.  Tensors are represented by their shapes only. *)

From Stdlib Require Import List String Ascii Bool Arith ZArith QArith Lia.
From Stdlib Require Import Decimal DecimalString DecimalNat.
Import ListNotations.

Local Open Scope string_scope.
Local Open Scope nat_scope.

(** ** Exceptions *)

Inductive exn : Type :=
| ValueError (msg : string)
| RuntimeError (msg : string)
| TypeError (msg : string).

Inductive result (A : Type) : Type :=
| Ok (a : A)
| Raise (e : exn).

Arguments Ok {A} a.
Arguments Raise {A} e.

Definition bind {A B : Type} (r : result A) (k : A -> result B) : result B :=
  match r with
  | Ok a => k a
  | Raise e => Raise e
  end.

Notation "x <- r ;; k" := (bind r (fun x => k))
  (at level 61, r at next level, right associativity).

(** ** Framework layers

    Each [torch.nn] layer is the record of the constructor arguments that
    the source passes or that the framework defaults fix. *)

Module nn.

Record Conv2d : Type := mkConv2d {
  in_channels : nat;
  out_channels : nat;
  kernel_size : nat;
  stride : nat;
  padding : nat;
  bias : bool
}.

Record BatchNorm2d : Type := mkBatchNorm2d {
  num_features : nat
}.

Record LeakyReLU : Type := mkLeakyReLU {
  negative_slope : Q;
  inplace : bool
}.

Record MaxPool2d : Type := mkMaxPool2d {
  mp_kernel_size : nat;
  mp_stride : nat
}.

Record AvgPool2d : Type := mkAvgPool2d {
  ap_kernel_size : nat;
  ap_stride : nat
}.

(** [nn.Sequential]: the ordered table [_modules] of named children. *)
Definition Sequential (A : Type) : Type := list (string * A).

(** [add_module(name, module)] is [self._modules[name] = module] on an
    ordered dictionary: an existing key keeps its position and gets the
    new value, a new key is appended. *)
Fixpoint add_module {A : Type} (self : Sequential A) (name : string) (module : A)
  : Sequential A :=
  match self with
  | [] => [(name, module)]
  | (k, v) :: rest =>
      if String.eqb k name then (k, module) :: rest
      else (k, v) :: add_module rest name module
  end.

Definition keys {A : Type} (self : Sequential A) : list string := map fst self.

End nn.

(** ** String formatting

    ["{}".format(n)] for a non-negative integer: its decimal digits. *)

Definition fmt (n : nat) : string := NilEmpty.string_of_uint (Nat.to_uint n).

(** ** DarkConv and its three constructors *)

Record DarkConv : Type := mkDarkConv {
  conv : nn.Conv2d;
  bn : nn.BatchNorm2d;
  activ : nn.LeakyReLU
}.

Definition DarkConv_init (in_channels out_channels kernel_size padding : nat) : DarkConv :=
  {| conv := nn.mkConv2d in_channels out_channels kernel_size 1 padding false;
     bn := nn.mkBatchNorm2d out_channels;
     activ := nn.mkLeakyReLU (1 # 10) true |}.

Definition dark_conv1x1 (in_channels out_channels : nat) : DarkConv :=
  DarkConv_init in_channels out_channels 1 0.

Definition dark_conv3x3 (in_channels out_channels : nat) : DarkConv :=
  DarkConv_init in_channels out_channels 3 1.

Definition dark_convYxY (in_channels out_channels : nat) (pointwise : bool) : DarkConv :=
  if pointwise then dark_conv1x1 in_channels out_channels
  else dark_conv3x3 in_channels out_channels.

(** ** The DarkNet module tree *)

(** A stage holds units and, possibly, a pooling operator. *)
Inductive StageModule : Type :=
| Unit (u : DarkConv)
| Pool (p : nn.MaxPool2d).

Definition Stage : Type := nn.Sequential StageModule.

(** The classifier head holds a convolution, an activation and a pooling. *)
Inductive OutputModule : Type :=
| FinalConv (c : nn.Conv2d)
| FinalActiv (a : nn.LeakyReLU)
| FinalPool (p : nn.AvgPool2d).

(** [training] is the mode flag every [nn.Module] has: set at
    construction, switched by [train] and [eval], which this program only
    ever calls on the network as a whole. *)
Record DarkNet : Type := mkDarkNet {
  features : nn.Sequential Stage;
  output : nn.Sequential OutputModule;
  training : bool
}.

(** [net.train(mode)]; [net.eval()] is [net.train(False)]. *)
Definition train (mode : bool) (net : DarkNet) : DarkNet :=
  {| features := features net; output := output net; training := mode |}.


(** The [pointwise] argument computed at line 89 of the source for the unit
    at 0-based position [j] of a stage with [n] output channels. *)
Definition pointwise_arg (n j : nat) (odd_pointwise : bool) : bool :=
  (1 <? n) && negb (xorb ((j + 1) mod 2 =? 1) odd_pointwise).

(** The inner loop [for j, out_channels in enumerate(channels_per_stage)]:
    [cs] is what is left of the stage's list and [j] the index reached; the
    loop state is the stage under construction and [in_channels]. *)
Fixpoint stage_units (odd_pointwise : bool) (n : nat) (j : nat) (cs : list nat)
    (stage : Stage) (in_channels : nat) : Stage * nat :=
  match cs with
  | [] => (stage, in_channels)
  | out_channels :: cs' =>
      let stage' :=
        nn.add_module stage ("unit" ++ fmt (j + 1))
          (Unit (dark_convYxY in_channels out_channels
                   (pointwise_arg n j odd_pointwise))) in
      stage_units odd_pointwise n (S j) cs' stage' out_channels
  end.

(** The outer loop [for i, channels_per_stage in enumerate(channels)];
    [len_channels] is [len(channels)] of the whole table, compared with
    [i] as Python does, over the integers. *)
Fixpoint stages_loop (odd_pointwise : bool) (len_channels : nat) (i : nat)
    (channels : list (list nat)) (features : nn.Sequential Stage)
    (in_channels : nat) : nn.Sequential Stage * nat :=
  match channels with
  | [] => (features, in_channels)
  | channels_per_stage :: rest =>
      let '(stage, in_channels') :=
        stage_units odd_pointwise (List.length channels_per_stage) 0
          channels_per_stage [] in_channels in
      let stage' :=
        if negb (Z.of_nat i =? Z.of_nat len_channels - 1)%Z
        then nn.add_module stage ("pool" ++ fmt (i + 1))
               (Pool (nn.mkMaxPool2d 2 2))
        else stage in
      stages_loop odd_pointwise len_channels (S i) rest
        (nn.add_module features ("stage" ++ fmt (i + 1)) stage') in_channels'
  end.

(** [DarkNet.__init__], the assembly of the module tree, on sizes the layer
    constructors accept (what they do with the others is in [DarkNet_new]
    below).  A new module is in training mode.  The last statement,
    [self._init_params()], changes parameter values and no structure; it is
    modelled on its own below, as [_init_params]. *)
Definition DarkNet_init (channels : list (list nat)) (odd_pointwise : bool)
    (avg_pool_size : nat) (cls_activ : bool) (in_channels num_classes : nat)
    : DarkNet :=
  let '(features, in_channels') :=
    stages_loop odd_pointwise (List.length channels) 0 channels [] in_channels in
  let output0 :=
    nn.add_module [] "final_conv"
      (FinalConv (nn.mkConv2d in_channels' num_classes 1 1 0 true)) in
  let output1 :=
    if cls_activ
    then nn.add_module output0 "final_activ" (FinalActiv (nn.mkLeakyReLU (1 # 10) true))
    else output0 in
  let output2 :=
    nn.add_module output1 "final_pool" (FinalPool (nn.mkAvgPool2d avg_pool_size 1)) in
  {| features := features; output := output2; training := true |}.

(** ** The constructors as Python calls them

    The sizes a caller passes are Python integers.  A layer constructor of
    the framework allocates its parameter tensors, and allocation refuses a
    negative dimension; nothing else is checked when a layer is built.  The
    constructors of this program check nothing themselves, so their calls
    raise exactly where a layer constructor does.  The pooling layers store
    their sizes without a check, and [avg_pool_size] stays a natural
    number. *)

(** The error of the allocation; its message goes on with the shape asked
    for. *)
Definition negative_dimension : exn :=
  RuntimeError "Trying to create tensor with negative dimension".

(** [nn.Conv2d(in_channels, out_channels, kernel_size, padding, bias)]: the
    weight has shape (out_channels, in_channels, k, k). *)
Definition Conv2d_call (in_channels out_channels : Z) (kernel_size padding : nat)
    (bias : bool) : result nn.Conv2d :=
  if ((in_channels <? 0) || (out_channels <? 0))%Z then Raise negative_dimension
  else Ok (nn.mkConv2d (Z.to_nat in_channels) (Z.to_nat out_channels)
             kernel_size 1 padding bias).

(** [nn.BatchNorm2d(num_features)]: four vectors of [num_features]. *)
Definition BatchNorm2d_call (num_features : Z) : result nn.BatchNorm2d :=
  if (num_features <? 0)%Z then Raise negative_dimension
  else Ok (nn.mkBatchNorm2d (Z.to_nat num_features)).

(** [DarkConv(in_channels, out_channels, kernel_size, padding)] *)
Definition DarkConv_call (in_channels out_channels : Z) (kernel_size padding : nat)
    : result DarkConv :=
  conv <- Conv2d_call in_channels out_channels kernel_size padding false ;;
  bn <- BatchNorm2d_call out_channels ;;
  Ok {| conv := conv; bn := bn; activ := nn.mkLeakyReLU (1 # 10) true |}.

Definition dark_conv1x1_call (in_channels out_channels : Z) : result DarkConv :=
  DarkConv_call in_channels out_channels 1 0.

Definition dark_conv3x3_call (in_channels out_channels : Z) : result DarkConv :=
  DarkConv_call in_channels out_channels 3 1.

Definition dark_convYxY_call (in_channels out_channels : Z) (pointwise : bool)
    : result DarkConv :=
  if pointwise then dark_conv1x1_call in_channels out_channels
  else dark_conv3x3_call in_channels out_channels.

(** The two loops of [DarkNet.__init__] again, each unit now built by a
    call that can raise. *)
Fixpoint stage_units_call (odd_pointwise : bool) (n : nat) (j : nat) (cs : list Z)
    (stage : Stage) (in_channels : Z) : result (Stage * Z) :=
  match cs with
  | [] => Ok (stage, in_channels)
  | out_channels :: cs' =>
      u <- dark_convYxY_call in_channels out_channels
             (pointwise_arg n j odd_pointwise) ;;
      stage_units_call odd_pointwise n (S j) cs'
        (nn.add_module stage ("unit" ++ fmt (j + 1)) (Unit u)) out_channels
  end.

Fixpoint stages_loop_call (odd_pointwise : bool) (len_channels : nat) (i : nat)
    (channels : list (list Z)) (features : nn.Sequential Stage)
    (in_channels : Z) : result (nn.Sequential Stage * Z) :=
  match channels with
  | [] => Ok (features, in_channels)
  | channels_per_stage :: rest =>
      r <- stage_units_call odd_pointwise (List.length channels_per_stage) 0
             channels_per_stage [] in_channels ;;
      let stage' :=
        if negb (Z.of_nat i =? Z.of_nat len_channels - 1)%Z
        then nn.add_module (fst r) ("pool" ++ fmt (i + 1))
               (Pool (nn.mkMaxPool2d 2 2))
        else fst r in
      stages_loop_call odd_pointwise len_channels (S i) rest
        (nn.add_module features ("stage" ++ fmt (i + 1)) stage') (snd r)
  end.

(** [DarkNet(channels, odd_pointwise, avg_pool_size, cls_activ, in_channels,
    num_classes)]: the whole constructor, from the table to the head. *)
Definition DarkNet_new (channels : list (list Z)) (odd_pointwise : bool)
    (avg_pool_size : nat) (cls_activ : bool) (in_channels num_classes : Z)
    : result DarkNet :=
  r <- stages_loop_call odd_pointwise (List.length channels) 0 channels []
         in_channels ;;
  final_conv <- Conv2d_call (snd r) num_classes 1 0 true ;;
  let output0 := nn.add_module [] "final_conv" (FinalConv final_conv) in
  let output1 :=
    if cls_activ
    then nn.add_module output0 "final_activ" (FinalActiv (nn.mkLeakyReLU (1 # 10) true))
    else output0 in
  let output2 :=
    nn.add_module output1 "final_pool" (FinalPool (nn.mkAvgPool2d avg_pool_size 1)) in
  Ok {| features := fst r; output := output2; training := true |}.

(** ** Keyword arguments

    [**kwargs] is a dictionary from names to Python values; the values this
    program looks at are integers ([True] and [False] are the integers 1
    and 0).  The keys of a dictionary are distinct. *)

Definition kwargs : Type := list (string * Z).

Definition no_kwargs : kwargs := [].

Fixpoint kwargs_get (kw : kwargs) (key : string) : option Z :=
  match kw with
  | [] => None
  | (k, v) :: rest => if String.eqb k key then Some v else kwargs_get rest key
  end.

Definition kwargs_pop (kw : kwargs) (key : string) : kwargs :=
  filter (fun kv => negb (String.eqb (fst kv) key)) kw.

Definition one_of (names : list string) (kv : string * Z) : bool :=
  existsb (String.eqb (fst kv)) names.

(** [DarkNet(channels=..., odd_pointwise=..., avg_pool_size=...,
    cls_activ=..., **kwargs)]: Python refuses a keyword given twice, then
    one that the constructor does not have, and binds [in_channels] and
    [num_classes], by default 3 and 1000. *)
Definition DarkNet_call (channels : list (list Z)) (odd_pointwise : bool)
    (avg_pool_size : nat) (cls_activ : bool) (kw : kwargs) : result DarkNet :=
  match find (one_of ["channels"; "odd_pointwise"; "avg_pool_size"; "cls_activ"]) kw with
  | Some (k, _) =>
      Raise (TypeError ("got multiple values for keyword argument " ++ k))
  | None =>
      match find (fun kv => negb (one_of ["in_channels"; "num_classes"] kv)) kw with
      | Some (k, _) =>
          Raise (TypeError ("__init__() got an unexpected keyword argument " ++ k))
      | None =>
          DarkNet_new channels odd_pointwise avg_pool_size cls_activ
            (match kwargs_get kw "in_channels" with Some c => c | None => 3%Z end)
            (match kwargs_get kw "num_classes" with Some c => c | None => 1000%Z end)
      end
  end.

(** ** The variant factory *)

Record config : Type := mkConfig {
  cfg_channels : list (list nat);
  cfg_odd_pointwise : bool;
  cfg_avg_pool_size : nat;
  cfg_cls_activ : bool
}.

(** The [if / elif / else] chain of [get_darknet]. *)
Definition version_config (version : string) : result config :=
  if String.eqb version "ref" then
    Ok (mkConfig [[16]; [32]; [64]; [128]; [256]; [512]; [1024]] false 3 true)
  else if String.eqb version "tiny" then
    Ok (mkConfig [[16]; [32]; [16; 128; 16; 128]; [32; 256; 32; 256];
                  [64; 512; 64; 512; 128]] true 14 false)
  else if String.eqb version "19" then
    Ok (mkConfig [[32]; [64]; [128; 64; 128]; [256; 128; 256];
                  [512; 256; 512; 256; 512]; [1024; 512; 1024; 512; 1024]]
          false 7 false)
  else Raise (ValueError ("Unsupported DarkNet version " ++ version)).

(** [get_darknet(version, pretrained, **kwargs)]; [pretrained] stands for
    the truth value of the argument. *)
Definition get_darknet (version : string) (pretrained : bool) (kw : kwargs)
    : result DarkNet :=
  cfg <- version_config version ;;
  if pretrained then Raise (ValueError "Pretrained model is not supported")
  else DarkNet_call (map (map Z.of_nat) (cfg_channels cfg)) (cfg_odd_pointwise cfg)
         (cfg_avg_pool_size cfg) (cfg_cls_activ cfg) kw.

(** [get_darknet(version, **kwargs)], as the three factories call it:
    Python refuses a second value for [version], binds the key
    [pretrained], if there is one, to the parameter of that name and leaves
    the other keys in [kwargs]. *)
Definition get_darknet_apply (version : string) (kw : kwargs) : result DarkNet :=
  match kwargs_get kw "version" with
  | Some _ =>
      Raise (TypeError "get_darknet() got multiple values for argument 'version'")
  | None =>
      get_darknet version
        (match kwargs_get kw "pretrained" with
         | Some v => negb (v =? 0)%Z
         | None => false
         end)
        (kwargs_pop kw "pretrained")
  end.

Definition darknet_ref (kw : kwargs) : result DarkNet := get_darknet_apply "ref" kw.
Definition darknet_tiny (kw : kwargs) : result DarkNet := get_darknet_apply "tiny" kw.
Definition darknet19 (kw : kwargs) : result DarkNet := get_darknet_apply "19" kw.

(** ** Module traversal: [named_modules]

    The traversal yields every module of the tree with its dotted path,
    parents before children, children in registration order.  [Module] is
    the class of the yielded object (what [isinstance] inspects) with the
    layer's data where the source reads it. *)

Inductive Module : Type :=
| AnyDarkNet
| AnySequential
| AnyDarkConv
| AnyConv2d (c : nn.Conv2d)
| AnyBatchNorm2d (b : nn.BatchNorm2d)
| AnyLeakyReLU (a : nn.LeakyReLU)
| AnyMaxPool2d (p : nn.MaxPool2d)
| AnyAvgPool2d (p : nn.AvgPool2d).

(** [prefix + ('.' if prefix else '') + name] *)
Definition submodule_prefix (prefix name : string) : string :=
  prefix ++ (if String.eqb prefix "" then "" else ".") ++ name.

Definition DarkConv_named_modules (prefix : string) (u : DarkConv)
    : list (string * Module) :=
  [ (prefix, AnyDarkConv);
    (submodule_prefix prefix "conv", AnyConv2d (conv u));
    (submodule_prefix prefix "bn", AnyBatchNorm2d (bn u));
    (submodule_prefix prefix "activ", AnyLeakyReLU (activ u)) ].

Definition StageModule_named_modules (prefix : string) (m : StageModule)
    : list (string * Module) :=
  match m with
  | Unit u => DarkConv_named_modules prefix u
  | Pool p => [(prefix, AnyMaxPool2d p)]
  end.

Definition OutputModule_named_modules (prefix : string) (m : OutputModule)
    : list (string * Module) :=
  match m with
  | FinalConv c => [(prefix, AnyConv2d c)]
  | FinalActiv a => [(prefix, AnyLeakyReLU a)]
  | FinalPool p => [(prefix, AnyAvgPool2d p)]
  end.

Definition Sequential_named_modules {A : Type}
    (child : string -> A -> list (string * Module))
    (prefix : string) (self : nn.Sequential A) : list (string * Module) :=
  (prefix, AnySequential)
  :: flat_map (fun nm => child (submodule_prefix prefix (fst nm)) (snd nm)) self.

Definition named_modules (net : DarkNet) : list (string * Module) :=
  ("", AnyDarkNet)
  :: (Sequential_named_modules (Sequential_named_modules StageModule_named_modules)
        (submodule_prefix "" "features") (features net)
      ++ Sequential_named_modules OutputModule_named_modules
        (submodule_prefix "" "output") (output net))%list.

(** ** Trainable parameters

    The shapes of the parameter tensors each layer registers: a convolution
    has a weight of shape (out, in, k, k) and, when built with a bias, a
    bias of shape (out); a batch normalization has a weight and a bias of
    shape (num_features); the other layers have none. *)

Definition Module_parameters (m : Module) : list (list Z) :=
  match m with
  | AnyConv2d c =>
      [Z.of_nat (nn.out_channels c); Z.of_nat (nn.in_channels c);
       Z.of_nat (nn.kernel_size c); Z.of_nat (nn.kernel_size c)]
      :: (if nn.bias c then [[Z.of_nat (nn.out_channels c)]] else [])
  | AnyBatchNorm2d b =>
      [[Z.of_nat (nn.num_features b)]; [Z.of_nat (nn.num_features b)]]
  | _ => []
  end.

Definition parameters (net : DarkNet) : list (list Z) :=
  flat_map (fun nm => Module_parameters (snd nm)) (named_modules net).

(** [np.prod(param.size())] *)
Definition prod (size : list Z) : Z := fold_right Z.mul 1%Z size.

(** The counting loop of [_test]: every parameter requires a gradient. *)
Definition weight_count (net : DarkNet) : Z :=
  fold_left (fun acc size => (acc + prod size)%Z) (parameters net) 0%Z.

(** ** Parameter initialization: [_init_params]

    The pass is run for its effects on the parameter tensors; its model is
    the sequence of initializer calls it makes, each on the parameter
    [param] of the module at path [name]. *)

Inductive param : Type := weight | bias.

Inductive initializer : Type :=
| normal_ (mean std : Q)
| kaiming_uniform_
| constant_ (val : Q).

Definition init_call : Type := (string * param * initializer)%type.

(** [sub in s] on strings *)
Fixpoint contains (sub s : string) : bool :=
  String.prefix sub s
  || match s with
     | EmptyString => false
     | String _ s' => contains sub s'
     end.

Definition init_module (name : string) (module : Module) : list init_call :=
  match module with
  | AnyConv2d c =>
      (name, weight,
       if contains "final_conv" name then normal_ 0 (1 # 100) else kaiming_uniform_)
      :: (if nn.bias c then [(name, bias, constant_ 0)] else [])
  | _ => []
  end.

Definition _init_params (net : DarkNet) : list init_call :=
  flat_map (fun nm => init_module (fst nm) (snd nm)) (named_modules net).

(** ** Forward pass on shapes

    A tensor is represented by its shape: (batch, channels, height, width),
    or (channels, height, width) for an input without a batch dimension,
    which convolution and pooling also accept.  The layers follow the
    framework's shape rules.  A convolution or pooling window of size k
    with padding p and stride s maps an extent h to (h + 2p - k) / s + 1
    and is refused when it does not fit.  A convolution refuses a weight
    without output channels, then a channel count other than its own; one
    without input channels returns a tensor without channels.  A pooling
    refuses a tensor without channels.  The normalization wants four
    dimensions, in training mode more than one value per channel, and, of a
    tensor that has elements, its own channel count.  The activation keeps
    the shape. *)

Definition window (h k s p : nat) : result nat :=
  if (k =? 0) || (s =? 0) then Raise (RuntimeError "empty window or stride")
  else if h + 2 * p <? k then Raise (RuntimeError "output size is too small")
  else Ok ((h + 2 * p - k) / s + 1).

(** The shape a convolution gives to [ch] channels of extent [h] by [w];
    [batch] is the batch dimension, if there is one. *)
Definition Conv2d_shape (c : nn.Conv2d) (batch : list nat) (ch h w : nat)
    : result (list nat) :=
  if nn.out_channels c =? 0
  then Raise (RuntimeError "expected weight to be at least 1 at dimension 0")
  else if ch =? nn.in_channels c then
    h' <- window h (nn.kernel_size c) (nn.stride c) (nn.padding c) ;;
    w' <- window w (nn.kernel_size c) (nn.stride c) (nn.padding c) ;;
    Ok (batch ++ [if nn.in_channels c =? 0 then 0 else nn.out_channels c; h'; w'])%list
  else Raise (RuntimeError "input channels do not match the weight").

Definition Conv2d_forward (c : nn.Conv2d) (x : list nat) : result (list nat) :=
  match x with
  | [n; ch; h; w] => Conv2d_shape c [n] ch h w
  | [ch; h; w] => Conv2d_shape c [] ch h w
  | _ => Raise (RuntimeError "expected 3D (unbatched) or 4D (batched) input")
  end.

Definition BatchNorm2d_forward (training : bool) (b : nn.BatchNorm2d) (x : list nat)
    : result (list nat) :=
  match x with
  | [n; ch; h; w] =>
      if training && (n * h * w =? 1)
      then Raise (ValueError "Expected more than 1 value per channel when training")
      else if n * ch * h * w =? 0 then Ok x
      else if ch =? nn.num_features b then Ok x
      else Raise (RuntimeError "running_mean should contain as many elements as channels")
  | _ => Raise (ValueError "expected 4D input")
  end.

Definition LeakyReLU_forward (a : nn.LeakyReLU) (x : list nat) : result (list nat) :=
  Ok x.

Definition pool_shape (k s : nat) (batch : list nat) (ch h w : nat)
    : result (list nat) :=
  if ch =? 0 then Raise (RuntimeError "non-empty 3D or 4D input tensor expected")
  else
    h' <- window h k s 0 ;;
    w' <- window w k s 0 ;;
    Ok (batch ++ [ch; h'; w'])%list.

Definition pool_forward (k s : nat) (x : list nat) : result (list nat) :=
  match x with
  | [n; ch; h; w] => pool_shape k s [n] ch h w
  | [ch; h; w] => pool_shape k s [] ch h w
  | _ => Raise (RuntimeError "non-empty 3D or 4D input tensor expected")
  end.

Definition DarkConv_forward (training : bool) (u : DarkConv) (x : list nat)
    : result (list nat) :=
  x <- Conv2d_forward (conv u) x ;;
  x <- BatchNorm2d_forward training (bn u) x ;;
  LeakyReLU_forward (activ u) x.

Definition StageModule_forward (training : bool) (m : StageModule) (x : list nat)
    : result (list nat) :=
  match m with
  | Unit u => DarkConv_forward training u x
  | Pool p => pool_forward (nn.mp_kernel_size p) (nn.mp_stride p) x
  end.

Definition OutputModule_forward (m : OutputModule) (x : list nat) : result (list nat) :=
  match m with
  | FinalConv c => Conv2d_forward c x
  | FinalActiv a => LeakyReLU_forward a x
  | FinalPool p => pool_forward (nn.ap_kernel_size p) (nn.ap_stride p) x
  end.

(** [nn.Sequential.forward]: the children in order. *)
Fixpoint Sequential_forward {A : Type} (child : A -> list nat -> result (list nat))
    (self : nn.Sequential A) (x : list nat) : result (list nat) :=
  match self with
  | [] => Ok x
  | (_, m) :: rest => x' <- child m x ;; Sequential_forward child rest x'
  end.

(** [x.view(x.size(0), -1)]: the second dimension is inferred, which the
    framework refuses for a tensor without elements. *)
Definition view_flat (x : list nat) : result (list nat) :=
  match x with
  | [] => Raise (RuntimeError "size of a 0-dimensional tensor")
  | n :: rest =>
      if n * fold_right Nat.mul 1 rest =? 0
      then Raise (RuntimeError "cannot infer the -1 dimension")
      else Ok [n; fold_right Nat.mul 1 rest]
  end.

Definition features_forward (net : DarkNet) (x : list nat) : result (list nat) :=
  Sequential_forward (Sequential_forward (StageModule_forward (training net)))
    (features net) x.

Definition forward (net : DarkNet) (x : list nat) : result (list nat) :=
  x <- features_forward net x ;;
  x <- Sequential_forward OutputModule_forward (output net) x ;;
  view_flat x.

(** * Vocabulary of the statements

    Nothing below is part of the program: these are the closed forms of what
    the loops build and the predicates the theorems are stated with. *)

(** A name is numbered by [m] under the stem [stem] when it is the stem
    followed by the digits of [m]. *)
Definition numbered (stem : string) (bound : nat) (k : string) : Prop :=
  exists m, m <= bound /\ k = stem ++ fmt m.

(** The units of a stage, listed directly. *)
Fixpoint units_of (odd_pointwise : bool) (n j : nat) (cs : list nat)
    (in_channels : nat) : Stage :=
  match cs with
  | [] => []
  | out_channels :: cs' =>
      ("unit" ++ fmt (j + 1),
       Unit (dark_convYxY in_channels out_channels (pointwise_arg n j odd_pointwise)))
      :: units_of odd_pointwise n (S j) cs' out_channels
  end.

(** What follows the units of the stage at position [i]. *)
Definition pool_of (len_channels i : nat) : Stage :=
  if negb (Z.of_nat i =? Z.of_nat len_channels - 1)%Z
  then [("pool" ++ fmt (i + 1), Pool (nn.mkMaxPool2d 2 2))]
  else [].

(** The stages of a network, listed directly. *)
Fixpoint stages_of (odd_pointwise : bool) (len_channels i : nat)
    (channels : list (list nat)) (in_channels : nat) : nn.Sequential Stage :=
  match channels with
  | [] => []
  | cs :: rest =>
      ("stage" ++ fmt (i + 1),
       (units_of odd_pointwise (List.length cs) 0 cs in_channels
        ++ pool_of len_channels i)%list)
      :: stages_of odd_pointwise len_channels (S i) rest (last cs in_channels)
  end.

(** The channel count that leaves the last stage. *)
Fixpoint channels_out (channels : list (list nat)) (in_channels : nat) : nat :=
  match channels with
  | [] => in_channels
  | cs :: rest => channels_out rest (last cs in_channels)
  end.

(** The classifier head, listed directly. *)
Definition output_of (avg_pool_size : nat) (cls_activ : bool)
    (in_channels num_classes : nat) : nn.Sequential OutputModule :=
  (("final_conv", FinalConv (nn.mkConv2d in_channels num_classes 1 1 0 true))
   :: (if cls_activ then [("final_activ", FinalActiv (nn.mkLeakyReLU (1 # 10) true))]
       else [])
   ++ [("final_pool", FinalPool (nn.mkAvgPool2d avg_pool_size 1))])%list.

(** The two kernels a unit can be built with. *)
Definition is_pointwise (u : DarkConv) : Prop :=
  nn.kernel_size (conv u) = 1 /\ nn.padding (conv u) = 0.

Definition is_spatial (u : DarkConv) : Prop :=
  nn.kernel_size (conv u) = 3 /\ nn.padding (conv u) = 1.

(** Every unit of a stage satisfies [P]. *)
Definition units_all (P : DarkConv -> Prop) (stage : Stage) : Prop :=
  forall (nm : string) (u : DarkConv), In (nm, Unit u) stage -> P u.

(** The units at odd 1-based positions satisfy [first], the others [second]. *)
Definition alternates (first second : DarkConv -> Prop) (stage : Stage) : Prop :=
  forall (j : nat) (nm : string) (u : DarkConv),
    nth_error stage j = Some (nm, Unit u) ->
    if Nat.odd (j + 1) then first u else second u.

(** The names [get_darknet] accepts. *)
Definition supported_versions : list string := ["ref"; "tiny"; "19"].

(** The kernel sizes of the head's pooling operators. *)
Definition avg_pool_size_of (net : DarkNet) : list nat :=
  flat_map (fun nm => match snd nm with
                      | FinalPool p => [nn.ap_kernel_size p]
                      | _ => []
                      end) (output net).

(** The [_test] input and what a variant makes of it: the shape after the
    feature stages, the head's pooling size, the output shape. *)
Definition test_shapes (model : kwargs -> result DarkNet)
    : result (list nat * list nat * list nat) :=
  net <- model no_kwargs ;;
  let net := train true net in
  f <- features_forward net [1; 3; 224; 224] ;;
  y <- forward net [1; 3; 224; 224] ;;
  Ok (f, avg_pool_size_of net, y).

(** The character [c] occurs in [s]. *)
Fixpoint has_char (c : ascii) (s : string) : bool :=
  match s with
  | EmptyString => false
  | String a s' => Ascii.eqb c a || has_char c s'
  end.

(** The path of the convolution of unit [j] of stage [i]. *)
Definition unit_conv_name (i j : nat) : string :=
  submodule_prefix
    (submodule_prefix (submodule_prefix "features" ("stage" ++ fmt i))
       ("unit" ++ fmt j))
    "conv".

(** The convolutions of the units of a stage, and of all stages, in
    forward order; the convolutions of the head. *)
Definition unit_convs (stage : Stage) : list nn.Conv2d :=
  flat_map (fun nm => match snd nm with
                      | Unit u => [conv u]
                      | Pool _ => []
                      end) stage.

Definition feature_convs (net : DarkNet) : list nn.Conv2d :=
  flat_map (fun s => unit_convs (snd s)) (features net).

Definition head_convs (net : DarkNet) : list nn.Conv2d :=
  flat_map (fun nm => match snd nm with
                      | FinalConv c => [c]
                      | _ => []
                      end) (output net).

(** The number of pooling operators of a network built from [channels]:
    one after each stage but the last. *)
Definition pools (channels : list (list nat)) : nat := List.length channels - 1.

(** The keyword arguments as the constructor receives them. *)
Definition kw_in (kw : kwargs) : nat :=
  match kwargs_get kw "in_channels" with Some c => Z.to_nat c | None => 3 end.

Definition kw_classes (kw : kwargs) : nat :=
  match kwargs_get kw "num_classes" with Some c => Z.to_nat c | None => 1000 end.

(** The parameters of one unit: the weight of its convolution and the two
    vectors of its batch normalization. *)
Definition unit_parameters (c : nn.Conv2d) : Z :=
  (Z.of_nat (nn.out_channels c) * Z.of_nat (nn.in_channels c)
   * Z.of_nat (nn.kernel_size c) * Z.of_nat (nn.kernel_size c)
   + 2 * Z.of_nat (nn.out_channels c))%Z.

Definition sumZ (l : list Z) : Z := fold_right Z.add 0%Z l.

(** The number of parameters held by a list of traversed modules. *)
Definition modules_parameters (l : list (string * Module)) : Z :=
  sumZ (map prod (flat_map (fun nm => Module_parameters (snd nm)) l)).

(** The paths a traversal yields. *)
Definition names (l : list (string * Module)) : list string := map fst l.

(** [s] is the path [p] or a path below it: [p] followed by nothing or by
    a dot and more. *)
Definition below (p s : string) : Prop :=
  exists r, s = p ++ r /\ (r = "" \/ exists r', r = "." ++ r').

Definition dot_free (k : string) : Prop := has_char "." k = false.

(** The parameters the initialization pass touches, in call order. *)
Definition initialized (net : DarkNet) : list (string * param) :=
  map fst (_init_params net).

(** The sizes the layer constructors accept: no negative count. *)
Definition sizes_accepted (channels : list (list Z)) (in_channels num_classes : Z)
    : Prop :=
  (0 <= in_channels)%Z /\ (0 <= num_classes)%Z
  /\ Forall (Forall (fun c => (0 <= c)%Z)) channels.

(** The same, as the constructor meets the sizes: every convolution is
    built from the count before it and its own. *)
Fixpoint chain_ok (in_channels : Z) (cs : list Z) : bool :=
  match cs with
  | [] => true
  | out_channels :: cs' =>
      (0 <=? in_channels)%Z && (0 <=? out_channels)%Z && chain_ok out_channels cs'
  end.

Fixpoint stages_chain_ok (in_channels : Z) (channels : list (list Z)) : bool :=
  match channels with
  | [] => true
  | cs :: rest => chain_ok in_channels cs && stages_chain_ok (last cs in_channels) rest
  end.

Definition table_nat (channels : list (list Z)) : list (list nat) :=
  map (map Z.to_nat) channels.

(** The keyword arguments the constructor call accepts: no key but
    [in_channels] and [num_classes], no negative value. *)
Definition kwargs_accepted (kw : kwargs) : Prop :=
  Forall (fun kv => fst kv = "in_channels" \/ fst kv = "num_classes") kw
  /\ (forall v, kwargs_get kw "in_channels" = Some v -> (0 <= v)%Z)
  /\ (forall v, kwargs_get kw "num_classes" = Some v -> (0 <= v)%Z).


(** The two sizes a dictionary of keyword arguments hands to the
    constructor, as the integers they are. *)
Definition kw_in_Z (kw : kwargs) : Z :=
  match kwargs_get kw "in_channels" with Some c => c | None => 3%Z end.

Definition kw_classes_Z (kw : kwargs) : Z :=
  match kwargs_get kw "num_classes" with Some c => c | None => 1000%Z end.

(** A channel table without an empty layer: every count is at least 1. *)
Definition positive_table (channels : list (list nat)) : Prop :=
  Forall (Forall (fun c => 1 <= c)) channels.

(** * Properties *)

(** ** Names *)

Lemma fmt_inj (n m : nat) : fmt n = fmt m -> n = m.
Proof.
  unfold fmt. intros H.
  apply (f_equal NilEmpty.uint_of_string) in H.
  rewrite !NilEmpty.usu in H. injection H as H.
  apply (f_equal Nat.of_uint) in H.
  now rewrite !Unsigned.of_to in H.
Qed.

Lemma numbered_fresh (stem : string) (j : nat) (ks : list string) :
  Forall (numbered stem j) ks -> ~ In (stem ++ fmt (j + 1)) ks.
Proof.
  intros Hall Hin. rewrite Forall_forall in Hall.
  destruct (Hall _ Hin) as (m & Hm & E).
  assert (fmt (j + 1) = fmt m) as E'.
  { clear -E. induction stem as [|a stem IH]; simpl in E; [exact E|].
    injection E as E. auto. }
  apply fmt_inj in E'. lia.
Qed.

Lemma numbered_step (stem : string) (j : nat) (ks : list string) :
  Forall (numbered stem j) ks ->
  Forall (numbered stem (S j)) (ks ++ [(stem ++ fmt (j + 1))%string])%list.
Proof.
  intros Hall. apply Forall_app. split.
  - eapply Forall_impl; [|exact Hall].
    intros k (m & Hm & ->). exists m. split; [lia|reflexivity].
  - constructor; [|constructor]. exists (j + 1). split; [lia|reflexivity].
Qed.

(** ** [add_module] on a fresh name appends *)

Lemma add_module_fresh {A : Type} (self : nn.Sequential A) (name : string) (m : A) :
  ~ In name (nn.keys self) -> nn.add_module self name m = (self ++ [(name, m)])%list.
Proof.
  induction self as [|[k v] rest IH]; simpl; intros Hfresh; [reflexivity|].
  destruct (String.eqb_spec k name) as [->|Hne].
  - exfalso. apply Hfresh. now left.
  - rewrite IH; [reflexivity|]. intros Hin. apply Hfresh. now right.
Qed.

Lemma keys_app {A : Type} (s t : nn.Sequential A) :
  nn.keys (s ++ t)%list = (nn.keys s ++ nn.keys t)%list.
Proof. apply map_app. Qed.

Lemma last_cons {A : Type} (l : list A) :
  forall a d : A, last (a :: l) d = last l a.
Proof.
  induction l as [|b l IH]; intros a d; [reflexivity|].
  change (last (a :: b :: l) d) with (last (b :: l) d).
  now rewrite !IH.
Qed.

(** ** Closed form of the assembled stages *)

Section Assembly.

Variable odd_pointwise : bool.

Lemma stage_units_closed (n : nat) (cs : list nat) :
  forall (j : nat) (stage : Stage) (in_channels : nat),
    Forall (numbered "unit" j) (nn.keys stage) ->
    stage_units odd_pointwise n j cs stage in_channels
    = ((stage ++ units_of odd_pointwise n j cs in_channels)%list, last cs in_channels).
Proof.
  induction cs as [|oc cs IH]; intros j stage ic Hkeys.
  - simpl. now rewrite app_nil_r.
  - cbn [stage_units units_of].
    rewrite add_module_fresh by (apply numbered_fresh; exact Hkeys).
    rewrite IH.
    + rewrite <- app_assoc. cbn [app]. now rewrite last_cons.
    + rewrite keys_app. apply (numbered_step "unit"). exact Hkeys.
Qed.

Lemma units_of_keys (n : nat) (cs : list nat) :
  forall (j ic : nat) (k : string),
    In k (nn.keys (units_of odd_pointwise n j cs ic)) -> exists m, k = "unit" ++ fmt m.
Proof.
  induction cs as [|oc cs IH]; intros j ic k; simpl; [tauto|].
  intros [<-|Hin]; [eexists; reflexivity|]. eapply IH. exact Hin.
Qed.

Lemma pool_fresh (n i : nat) (cs : list nat) (ic : nat) :
  ~ In ("pool" ++ fmt (i + 1)) (nn.keys (units_of odd_pointwise n 0 cs ic)).
Proof.
  intros Hin. apply units_of_keys in Hin. destruct Hin as (m & E).
  discriminate E.
Qed.

Lemma stages_loop_closed (len_channels : nat) (channels : list (list nat)) :
  forall (i : nat) (feats : nn.Sequential Stage) (in_channels : nat),
    Forall (numbered "stage" i) (nn.keys feats) ->
    stages_loop odd_pointwise len_channels i channels feats in_channels
    = ((feats ++ stages_of odd_pointwise len_channels i channels in_channels)%list,
       channels_out channels in_channels).
Proof.
  induction channels as [|cs rest IH]; intros i feats ic Hkeys.
  - simpl. now rewrite app_nil_r.
  - cbn [stages_loop stages_of channels_out].
    rewrite stage_units_closed by constructor. cbn [app].
    rewrite add_module_fresh by (apply numbered_fresh; exact Hkeys).
    rewrite IH by (rewrite keys_app; apply (numbered_step "stage"); exact Hkeys).
    rewrite <- app_assoc. cbn [app]. unfold pool_of.
    destruct (negb (Z.of_nat i =? Z.of_nat len_channels - 1)%Z).
    + now rewrite add_module_fresh by apply pool_fresh.
    + now rewrite app_nil_r.
Qed.

End Assembly.

Lemma DarkNet_init_closed (channels : list (list nat)) (odd_pointwise : bool)
    (avg_pool_size : nat) (cls_activ : bool) (in_channels num_classes : nat) :
  DarkNet_init channels odd_pointwise avg_pool_size cls_activ in_channels num_classes
  = {| features := stages_of odd_pointwise (List.length channels) 0 channels in_channels;
       output := output_of avg_pool_size cls_activ
                   (channels_out channels in_channels) num_classes;
       training := true |}.
Proof.
  unfold DarkNet_init.
  rewrite stages_loop_closed by constructor. cbn [app].
  unfold output_of. destruct cls_activ; reflexivity.
Qed.

(** ** Kernel choice of a unit *)

Lemma odd_mod2 (n : nat) : (n mod 2 =? 1) = Nat.odd n.
Proof.
  pose proof (Nat.div2_odd n) as Hn.
  pose proof (Nat.mod_upper_bound n 2 ltac:(lia)) as Hlt.
  pose proof (Nat.div_mod_eq n 2) as Hdm.
  destruct (Nat.odd n); simpl Nat.b2n in Hn.
  - apply Nat.eqb_eq. lia.
  - apply Nat.eqb_neq. lia.
Qed.

Lemma pointwise_arg_parity (n j : nat) (odd_pointwise : bool) :
  1 < n ->
  pointwise_arg n j odd_pointwise = negb (xorb (Nat.odd (j + 1)) odd_pointwise).
Proof.
  intros Hn. unfold pointwise_arg. rewrite odd_mod2.
  destruct (Nat.ltb_spec 1 n); [reflexivity|lia].
Qed.

Lemma pointwise_arg_single (j : nat) (odd_pointwise : bool) :
  pointwise_arg 1 j odd_pointwise = false.
Proof. reflexivity. Qed.

Lemma dark_convYxY_kernel (ic oc : nat) (pointwise : bool) :
  if pointwise then is_pointwise (dark_convYxY ic oc pointwise)
  else is_spatial (dark_convYxY ic oc pointwise).
Proof. destruct pointwise; split; reflexivity. Qed.

Lemma is_pointwise_not_spatial (u : DarkConv) : is_pointwise u -> ~ is_spatial u.
Proof. intros [Hk _] [Hk' _]. congruence. Qed.

(** ** Indexing the closed form *)

Section Indexing.

Variable odd_pointwise : bool.

Lemma units_of_length (n : nat) (cs : list nat) :
  forall j ic, List.length (units_of odd_pointwise n j cs ic) = List.length cs.
Proof. induction cs; intros; simpl; auto. Qed.

Lemma units_of_nth (n : nat) (cs : list nat) :
  forall (j0 ic j oc : nat),
    nth_error cs j = Some oc ->
    exists ic',
      nth_error (units_of odd_pointwise n j0 cs ic) j
      = Some ("unit" ++ fmt (j0 + j + 1),
              Unit (dark_convYxY ic' oc (pointwise_arg n (j0 + j) odd_pointwise))).
Proof.
  induction cs as [|c cs IH]; intros j0 ic j oc Hj.
  - destruct j; discriminate.
  - destruct j as [|j]; simpl in Hj.
    + injection Hj as ->. exists ic. simpl. now rewrite Nat.add_0_r.
    + destruct (IH (S j0) c j oc Hj) as (ic' & E).
      exists ic'. simpl. rewrite E.
      now replace (S j0 + j) with (j0 + S j) by lia.
Qed.

Lemma units_of_in (n : nat) (cs : list nat) :
  forall (j0 ic : nat) (nm : string) (m : StageModule),
    In (nm, m) (units_of odd_pointwise n j0 cs ic) ->
    exists j ic' oc,
      nth_error cs j = Some oc
      /\ nm = "unit" ++ fmt (j0 + j + 1)
      /\ m = Unit (dark_convYxY ic' oc (pointwise_arg n (j0 + j) odd_pointwise)).
Proof.
  intros j0 ic nm m Hin.
  apply In_nth_error in Hin. destruct Hin as (j & Hj).
  assert (j < List.length cs) as Hlt.
  { rewrite <- (units_of_length n cs j0 ic). apply nth_error_Some. congruence. }
  destruct (nth_error cs j) as [oc|] eqn:Hoc;
    [|apply nth_error_None in Hoc; lia].
  destruct (units_of_nth n cs j0 ic j oc Hoc) as (ic' & E).
  rewrite E in Hj. injection Hj as <- <-.
  exists j, ic', oc. auto.
Qed.

Lemma units_of_are_units (n : nat) (cs : list nat) (j0 ic : nat) :
  Forall (fun nm => exists u, snd nm = Unit u) (units_of odd_pointwise n j0 cs ic).
Proof.
  apply Forall_forall. intros [nm m] Hin.
  apply units_of_in in Hin. destruct Hin as (j & ic' & oc & _ & _ & ->).
  eexists. reflexivity.
Qed.

Lemma pool_of_no_unit (len i : nat) (nm : string) (u : DarkConv) :
  ~ In (nm, Unit u) (pool_of len i).
Proof.
  unfold pool_of. destruct (negb _); simpl; [|tauto].
  intros [E|[]]. discriminate E.
Qed.

Lemma stages_of_length (len : nat) (channels : list (list nat)) :
  forall i ic,
    List.length (stages_of odd_pointwise len i channels ic) = List.length channels.
Proof. induction channels; intros; simpl; auto. Qed.

Lemma stages_of_nth (len : nat) (channels : list (list nat)) :
  forall (i0 ic i : nat) (cs : list nat),
    nth_error channels i = Some cs ->
    exists ic',
      nth_error (stages_of odd_pointwise len i0 channels ic) i
      = Some ("stage" ++ fmt (i0 + i + 1),
              (units_of odd_pointwise (List.length cs) 0 cs ic'
               ++ pool_of len (i0 + i))%list).
Proof.
  induction channels as [|c channels IH]; intros i0 ic i cs Hi.
  - destruct i; discriminate.
  - destruct i as [|i]; simpl in Hi.
    + injection Hi as ->. exists ic. simpl. now rewrite Nat.add_0_r.
    + destruct (IH (S i0) (last c ic) i cs Hi) as (ic' & E).
      exists ic'. simpl. rewrite E.
      now replace (S i0 + i) with (i0 + S i) by lia.
Qed.

End Indexing.

(** The stage at position [i] of an assembled network: its units, then the
    pooling operator of that position. *)
Lemma features_nth (channels : list (list nat)) (odd_pointwise : bool)
    (avg_pool_size : nat) (cls_activ : bool) (in_channels num_classes : nat)
    (i : nat) (cs : list nat) :
  nth_error channels i = Some cs ->
  exists ic',
    nth_error (features (DarkNet_init channels odd_pointwise avg_pool_size cls_activ
                           in_channels num_classes)) i
    = Some ("stage" ++ fmt (i + 1),
            (units_of odd_pointwise (List.length cs) 0 cs ic'
             ++ pool_of (List.length channels) i)%list).
Proof.
  intros Hi. rewrite DarkNet_init_closed. cbn [features].
  exact (stages_of_nth odd_pointwise _ channels 0 in_channels i cs Hi).
Qed.

Lemma pool_of_last (len i : nat) :
  i < len -> pool_of len i = if i + 1 =? len then []
                             else [("pool" ++ fmt (i + 1), Pool (nn.mkMaxPool2d 2 2))].
Proof.
  intros Hi. unfold pool_of.
  destruct (Z.eqb_spec (Z.of_nat i) (Z.of_nat len - 1));
    destruct (Nat.eqb_spec (i + 1) len); try reflexivity; lia.
Qed.

Lemma stage_unit_at (odd_pointwise : bool) (n len i : nat) (cs : list nat)
    (ic j : nat) (nm : string) (u : DarkConv) :
  nth_error (units_of odd_pointwise n 0 cs ic ++ pool_of len i)%list j
  = Some (nm, Unit u) ->
  exists ic' oc,
    nth_error cs j = Some oc
    /\ nm = "unit" ++ fmt (j + 1)
    /\ u = dark_convYxY ic' oc (pointwise_arg n j odd_pointwise).
Proof.
  intros Hj.
  destruct (Nat.lt_ge_cases j (List.length cs)) as [Hlt|Hge].
  - rewrite nth_error_app1 in Hj by (now rewrite units_of_length).
    destruct (nth_error cs j) as [oc|] eqn:Hoc;
      [|apply nth_error_None in Hoc; lia].
    destruct (units_of_nth odd_pointwise n cs 0 ic j oc Hoc) as (ic' & E).
    rewrite E in Hj. injection Hj as <- <-. exists ic', oc. auto.
  - rewrite nth_error_app2 in Hj by (now rewrite units_of_length).
    apply nth_error_In in Hj. now apply pool_of_no_unit in Hj.
Qed.

Lemma stage_unit_in (odd_pointwise : bool) (n len i : nat) (cs : list nat)
    (ic : nat) (nm : string) (u : DarkConv) :
  In (nm, Unit u) (units_of odd_pointwise n 0 cs ic ++ pool_of len i)%list ->
  exists j ic' oc,
    nth_error cs j = Some oc
    /\ u = dark_convYxY ic' oc (pointwise_arg n j odd_pointwise).
Proof.
  intros Hin. apply In_nth_error in Hin. destruct Hin as (j & Hj).
  apply stage_unit_at in Hj. destruct Hj as (ic' & oc & Hoc & _ & ->).
  exists j, ic', oc. auto.
Qed.

(** ** Kernel alternation (C1, C2, C3) *)

(** C1, as the specification states it, fails: in the stage built from the
    one-element channel list [16] the single unit is a 3x3 convolution, not
    a pointwise one. *)
Lemma single_unit_stage_pointwise_refuted :
  ~ (forall (channels : list (list nat)) (odd_pointwise : bool)
       (avg_pool_size : nat) (cls_activ : bool) (in_channels num_classes : nat)
       (i : nat) (cs : list nat) (name : string) (stage : Stage),
        nth_error channels i = Some cs ->
        List.length cs = 1 ->
        nth_error (features (DarkNet_init channels odd_pointwise avg_pool_size
                               cls_activ in_channels num_classes)) i
        = Some (name, stage) ->
        units_all is_pointwise stage).
Proof.
  intros H.
  specialize (H [[16]] false 3 true 3 1000 0 [16] "stage1"
                [("unit1", Unit (dark_conv3x3 3 16))]
                eq_refl eq_refl eq_refl "unit1" (dark_conv3x3 3 16)
                (or_introl eq_refl)).
  destruct H as [Hk _]. discriminate Hk.
Qed.

(** C1, amended: for every stage whose output-channel list has length 1,
    the stage has its unit [unit1] and every unit of the stage is built
    with the spatial 3x3 kernel (padding 1), whatever [odd_pointwise] is. *)
Theorem single_unit_stage_spatial (channels : list (list nat)) (odd_pointwise : bool)
    (avg_pool_size : nat) (cls_activ : bool) (in_channels num_classes : nat)
    (i : nat) (cs : list nat) (name : string) (stage : Stage) :
  nth_error channels i = Some cs ->
  List.length cs = 1 ->
  nth_error (features (DarkNet_init channels odd_pointwise avg_pool_size
                         cls_activ in_channels num_classes)) i
  = Some (name, stage) ->
  (exists u, In ("unit1", Unit u) stage) /\ units_all is_spatial stage.
Proof.
  intros Hi Hlen Hst.
  destruct (features_nth channels odd_pointwise avg_pool_size cls_activ
              in_channels num_classes i cs Hi) as (ic' & E).
  rewrite E in Hst. injection Hst as <- <-.
  rewrite Hlen. split.
  - destruct cs as [|c [|c' cs]]; try discriminate Hlen.
    eexists. left. reflexivity.
  - intros nm u Hin. apply stage_unit_in in Hin.
    destruct Hin as (j & ic'' & oc & _ & ->).
    rewrite pointwise_arg_single. exact (dark_convYxY_kernel ic'' oc false).
Qed.

Lemma single_unit_stage_spatial_witness :
  (exists u, In ("unit1", Unit u) [("unit1", Unit (dark_conv3x3 3 32));
                                   ("pool1", Pool (nn.mkMaxPool2d 2 2))])
  /\ units_all is_spatial [("unit1", Unit (dark_conv3x3 3 32));
                           ("pool1", Pool (nn.mkMaxPool2d 2 2))].
Proof.
  apply (single_unit_stage_spatial [[32]; [64]; [128; 64; 128]] true 7 false 3 1000
           0 [32] "stage1"); reflexivity.
Defined.

(** C2, as the specification states it, fails: in the stage built from
    [128; 64; 128] with [odd_pointwise = False] the first unit is a 3x3
    convolution, so the alternation does not start pointwise. *)
Lemma alternation_starts_pointwise_refuted :
  ~ (forall (channels : list (list nat)) (odd_pointwise : bool)
       (avg_pool_size : nat) (cls_activ : bool) (in_channels num_classes : nat)
       (i : nat) (cs : list nat) (name : string) (stage : Stage),
        nth_error channels i = Some cs ->
        1 < List.length cs ->
        nth_error (features (DarkNet_init channels odd_pointwise avg_pool_size
                               cls_activ in_channels num_classes)) i
        = Some (name, stage) ->
        (odd_pointwise = false -> alternates is_pointwise is_spatial stage)
        /\ (odd_pointwise = true -> alternates is_spatial is_pointwise stage)).
Proof.
  intros H.
  destruct (H [[128; 64; 128]] false 7 false 3 1000 0 [128; 64; 128] "stage1"
              [("unit1", Unit (dark_conv3x3 3 128));
               ("unit2", Unit (dark_conv1x1 128 64));
               ("unit3", Unit (dark_conv3x3 64 128))]
              eq_refl ltac:(simpl; lia) eq_refl) as [Hf _].
  specialize (Hf eq_refl 0 "unit1" (dark_conv3x3 3 128) eq_refl).
  destruct Hf as [Hk _]. discriminate Hk.
Qed.

(** C2, amended: for every stage with channel list length > 1, each position
    of the list holds a unit; built with [odd_pointwise = False], unit 1
    (1-indexed) is spatial 3x3, unit 2 is pointwise, unit 3 is spatial, and
    so on alternating starting spatial; with [odd_pointwise = True] the
    starting kernel flips to pointwise. *)
Theorem alternation_by_odd_pointwise (channels : list (list nat)) (odd_pointwise : bool)
    (avg_pool_size : nat) (cls_activ : bool) (in_channels num_classes : nat)
    (i : nat) (cs : list nat) (name : string) (stage : Stage) :
  nth_error channels i = Some cs ->
  1 < List.length cs ->
  nth_error (features (DarkNet_init channels odd_pointwise avg_pool_size
                         cls_activ in_channels num_classes)) i
  = Some (name, stage) ->
  (forall j, j < List.length cs ->
             exists u, nth_error stage j = Some ("unit" ++ fmt (j + 1), Unit u))
  /\ (odd_pointwise = false -> alternates is_spatial is_pointwise stage)
  /\ (odd_pointwise = true -> alternates is_pointwise is_spatial stage).
Proof.
  intros Hi Hlen Hst.
  destruct (features_nth channels odd_pointwise avg_pool_size cls_activ
              in_channels num_classes i cs Hi) as (ic' & E).
  rewrite E in Hst. injection Hst as <- <-.
  split; [|split].
  - intros j Hj.
    destruct (nth_error cs j) as [oc|] eqn:Hoc;
      [|apply nth_error_None in Hoc; lia].
    destruct (units_of_nth odd_pointwise (List.length cs) cs 0 ic' j oc Hoc)
      as (ic'' & Eu).
    eexists. rewrite nth_error_app1 by (now rewrite units_of_length). exact Eu.
  - intros -> j nm u Hj. apply stage_unit_at in Hj.
    destruct Hj as (ic'' & oc & _ & _ & ->).
    rewrite pointwise_arg_parity by exact Hlen.
    destruct (Nat.odd (j + 1)); [exact (dark_convYxY_kernel ic'' oc false)
                                |exact (dark_convYxY_kernel ic'' oc true)].
  - intros -> j nm u Hj. apply stage_unit_at in Hj.
    destruct Hj as (ic'' & oc & _ & _ & ->).
    rewrite pointwise_arg_parity by exact Hlen.
    destruct (Nat.odd (j + 1)); [exact (dark_convYxY_kernel ic'' oc true)
                                |exact (dark_convYxY_kernel ic'' oc false)].
Qed.

Lemma alternation_by_odd_pointwise_witness :
  let stage := [("unit1", Unit (dark_conv1x1 3 16));
                ("unit2", Unit (dark_conv3x3 16 128));
                ("unit3", Unit (dark_conv1x1 128 16))] in
  (forall j, j < 3 ->
             exists u, nth_error stage j = Some ("unit" ++ fmt (j + 1), Unit u))
  /\ (true = false -> alternates is_spatial is_pointwise stage)
  /\ (true = true -> alternates is_pointwise is_spatial stage).
Proof.
  apply (alternation_by_odd_pointwise [[16; 128; 16]] true 14 false 3 1000
           0 [16; 128; 16] "stage1");
    [reflexivity | simpl; lia | reflexivity].
Defined.

(** C3: for every stage with channel list length n > 1, unit j (1-indexed;
    position [j] below is 0-based, so the unit is number [j + 1]) is built
    with the pointwise 1x1 kernel exactly when ((j is odd) XOR odd_pointwise)
    is false, and with the spatial 3x3 kernel otherwise. *)
Theorem unit_kernel_xor_rule (channels : list (list nat)) (odd_pointwise : bool)
    (avg_pool_size : nat) (cls_activ : bool) (in_channels num_classes : nat)
    (i : nat) (cs : list nat) (name : string) (stage : Stage) (j : nat) :
  nth_error channels i = Some cs ->
  1 < List.length cs ->
  j < List.length cs ->
  nth_error (features (DarkNet_init channels odd_pointwise avg_pool_size
                         cls_activ in_channels num_classes)) i
  = Some (name, stage) ->
  exists u,
    nth_error stage j = Some ("unit" ++ fmt (j + 1), Unit u)
    /\ (is_pointwise u <-> xorb (Nat.odd (j + 1)) odd_pointwise = false)
    /\ (is_spatial u <-> xorb (Nat.odd (j + 1)) odd_pointwise = true).
Proof.
  intros Hi Hlen Hj Hst.
  destruct (features_nth channels odd_pointwise avg_pool_size cls_activ
              in_channels num_classes i cs Hi) as (ic' & E).
  rewrite E in Hst. injection Hst as <- <-.
  destruct (nth_error cs j) as [oc|] eqn:Hoc;
    [|apply nth_error_None in Hoc; lia].
  destruct (units_of_nth odd_pointwise (List.length cs) cs 0 ic' j oc Hoc)
    as (ic'' & Eu).
  eexists. split.
  - rewrite nth_error_app1 by (now rewrite units_of_length). exact Eu.
  - cbn [Nat.add]. rewrite pointwise_arg_parity by exact Hlen.
    pose proof (dark_convYxY_kernel ic'' oc
                  (negb (xorb (Nat.odd (j + 1)) odd_pointwise))) as Hk.
    destruct (xorb (Nat.odd (j + 1)) odd_pointwise); cbn [negb] in Hk |- *.
    + split; split; intros H; try reflexivity; try exact Hk.
      * exfalso. exact (is_pointwise_not_spatial _ H Hk).
      * discriminate H.
    + split; split; intros H; try reflexivity; try exact Hk.
      * exfalso. exact (is_pointwise_not_spatial _ Hk H).
      * discriminate H.
Qed.

Lemma unit_kernel_xor_rule_witness :
  exists u,
    nth_error [("unit1", Unit (dark_conv3x3 3 128));
               ("unit2", Unit (dark_conv1x1 128 64));
               ("unit3", Unit (dark_conv3x3 64 128))] 1
    = Some ("unit" ++ fmt (1 + 1), Unit u)
    /\ (is_pointwise u <-> xorb (Nat.odd (1 + 1)) false = false)
    /\ (is_spatial u <-> xorb (Nat.odd (1 + 1)) false = true).
Proof.
  apply (unit_kernel_xor_rule [[128; 64; 128]] false 7 false 3 1000
           0 [128; 64; 128] "stage1");
    [reflexivity | simpl; lia | simpl; lia | reflexivity].
Defined.

(** ** Pooling between stages (C6) *)

(** C6: for every network configuration, each stage except the last in the
    ordered stage sequence ends with a 2x2, stride-2 max-pooling operator
    appended after all its units, and the final stage has no trailing
    pooling operator.  The network has one stage per row of the channel
    table; the stage at position [i] is the row's units followed, unless
    [i] is the last position, by exactly that pooling operator. *)
Theorem pooling_after_all_but_last_stage (channels : list (list nat))
    (odd_pointwise : bool) (avg_pool_size : nat) (cls_activ : bool)
    (in_channels num_classes : nat) (i : nat) (cs : list nat) :
  nth_error channels i = Some cs ->
  let net := DarkNet_init channels odd_pointwise avg_pool_size cls_activ
               in_channels num_classes in
  List.length (features net) = List.length channels
  /\ exists units : Stage,
      List.length units = List.length cs
      /\ Forall (fun nm => exists u, snd nm = Unit u) units
      /\ nth_error (features net) i
         = Some ("stage" ++ fmt (i + 1),
                 (units ++ if i + 1 =? List.length channels then []
                           else [(("pool" ++ fmt (i + 1))%string,
                                  Pool (nn.mkMaxPool2d 2 2))])%list).
Proof.
  intros Hi net. split.
  - unfold net. rewrite DarkNet_init_closed. apply stages_of_length.
  - destruct (features_nth channels odd_pointwise avg_pool_size cls_activ
                in_channels num_classes i cs Hi) as (ic' & E).
    exists (units_of odd_pointwise (List.length cs) 0 cs ic').
    split; [apply units_of_length|]. split; [apply units_of_are_units|].
    unfold net. rewrite E. rewrite pool_of_last; [reflexivity|].
    apply nth_error_Some. congruence.
Qed.

Lemma pooling_after_all_but_last_stage_witness :
  let net := DarkNet_init [[16]; [32; 64]] false 3 true 3 1000 in
  List.length (features net) = 2
  /\ exists units : Stage,
      List.length units = 2
      /\ Forall (fun nm => exists u, snd nm = Unit u) units
      /\ nth_error (features net) 1 = Some ("stage2", (units ++ [])%list).
Proof.
  apply (pooling_after_all_but_last_stage [[16]; [32; 64]] false 3 true 3 1000
           1 [32; 64]).
  reflexivity.
Defined.

Example pooling_first_of_two_stages :
  nth_error (features (DarkNet_init [[16]; [32; 64]] false 3 true 3 1000)) 0
  = Some ("stage1", [("unit1", Unit (dark_conv3x3 3 16));
                     ("pool1", Pool (nn.mkMaxPool2d 2 2))]).
Proof. reflexivity. Qed.

Lemma last_app_default {A : Type} (l l' : list A) (d : A) :
  last (l ++ l') d = last l' (last l d).
Proof.
  revert d. induction l as [|a l IH]; intros d; [reflexivity|].
  rewrite <- app_comm_cons.
  destruct l as [|b l].
  - cbn [app]. destruct l'; [reflexivity|]. now rewrite last_cons.
  - change (last (a :: (b :: l) ++ l') d) with (last ((b :: l) ++ l') d).
    rewrite IH. f_equal.
Qed.

Lemma channels_out_last (channels : list (list nat)) :
  forall ic, channels_out channels ic = last (List.concat channels) ic.
Proof.
  induction channels as [|cs rest IH]; intros ic; [reflexivity|].
  cbn [channels_out List.concat]. now rewrite IH, last_app_default.
Qed.

(** ** The constructor call and the assembly

    On sizes the layer constructors accept, the constructor call returns
    what [DarkNet_init] assembles; on the others it raises. *)

Lemma map_last (cs : list Z) :
  forall ic, Z.to_nat (last cs ic) = last (map Z.to_nat cs) (Z.to_nat ic).
Proof.
  induction cs as [|c cs IH]; intros ic; [reflexivity|].
  cbn [map]. now rewrite !last_cons.
Qed.

Lemma channels_out_table (channels : list (list Z)) :
  forall ic,
    channels_out (table_nat channels) (Z.to_nat ic)
    = Z.to_nat (last (List.concat channels) ic).
Proof.
  induction channels as [|cs rest IH]; intros ic; [reflexivity|].
  cbn [table_nat map channels_out List.concat].
  fold (table_nat rest).
  now rewrite <- map_last, IH, last_app_default.
Qed.

Lemma dark_convYxY_call_eq (ic oc : Z) (pointwise : bool) :
  dark_convYxY_call ic oc pointwise
  = if ((0 <=? ic) && (0 <=? oc))%Z
    then Ok (dark_convYxY (Z.to_nat ic) (Z.to_nat oc) pointwise)
    else Raise negative_dimension.
Proof.
  unfold dark_convYxY_call, dark_conv1x1_call, dark_conv3x3_call, DarkConv_call,
    Conv2d_call, BatchNorm2d_call.
  destruct (Z.leb_spec 0 ic), (Z.leb_spec 0 oc), (Z.ltb_spec ic 0),
    (Z.ltb_spec oc 0); try lia; destruct pointwise; reflexivity.
Qed.

Lemma stage_units_call_eq (odd_pointwise : bool) (n : nat) (cs : list Z) :
  forall j stage ic,
    stage_units_call odd_pointwise n j cs stage ic
    = if chain_ok ic cs
      then Ok (fst (stage_units odd_pointwise n j (map Z.to_nat cs) stage
                      (Z.to_nat ic)),
               last cs ic)
      else Raise negative_dimension.
Proof.
  induction cs as [|oc cs IH]; intros j stage ic; [reflexivity|].
  cbn [stage_units_call chain_ok map stage_units].
  rewrite dark_convYxY_call_eq.
  destruct ((0 <=? ic) && (0 <=? oc))%Z; [|reflexivity].
  cbn [bind andb]. rewrite IH, last_cons. reflexivity.
Qed.

Lemma stages_loop_call_eq (odd_pointwise : bool) (len : nat)
    (channels : list (list Z)) :
  forall i feats ic,
    stages_loop_call odd_pointwise len i channels feats ic
    = if stages_chain_ok ic channels
      then Ok (fst (stages_loop odd_pointwise len i (table_nat channels) feats
                      (Z.to_nat ic)),
               last (List.concat channels) ic)
      else Raise negative_dimension.
Proof.
  induction channels as [|cs rest IH]; intros i feats ic; [reflexivity|].
  cbn [stages_loop_call stages_chain_ok table_nat map stages_loop List.concat].
  fold (table_nat rest).
  rewrite stage_units_call_eq.
  destruct (chain_ok ic cs); [|reflexivity].
  cbn [bind andb fst snd]. rewrite IH, length_map, last_app_default.
  rewrite (stage_units_closed odd_pointwise (List.length cs) (map Z.to_nat cs)
             0 [] (Z.to_nat ic)) by constructor.
  cbn [app fst]. rewrite <- map_last. reflexivity.
Qed.

Lemma DarkNet_new_eq (channels : list (list Z)) (odd_pointwise : bool)
    (avg_pool_size : nat) (cls_activ : bool) (ic nc : Z) :
  DarkNet_new channels odd_pointwise avg_pool_size cls_activ ic nc
  = if (stages_chain_ok ic channels
        && (0 <=? last (List.concat channels) ic)%Z && (0 <=? nc)%Z)
    then Ok (DarkNet_init (table_nat channels) odd_pointwise avg_pool_size
               cls_activ (Z.to_nat ic) (Z.to_nat nc))
    else Raise negative_dimension.
Proof.
  unfold DarkNet_new, DarkNet_init.
  rewrite stages_loop_call_eq.
  destruct (stages_chain_ok ic channels); [|reflexivity].
  cbn [bind andb fst snd]. unfold Conv2d_call, table_nat.
  rewrite length_map. fold (table_nat channels).
  rewrite (stages_loop_closed odd_pointwise (List.length channels)
             (table_nat channels) 0 [] (Z.to_nat ic)) by constructor.
  cbn [app fst]. rewrite channels_out_table.
  destruct (Z.leb_spec 0 (last (List.concat channels) ic)),
    (Z.leb_spec 0 nc), (Z.ltb_spec (last (List.concat channels) ic) 0),
    (Z.ltb_spec nc 0); try lia; reflexivity.
Qed.

Lemma chain_ok_true (cs : list Z) :
  forall ic,
    chain_ok ic cs = true
    <-> Forall (fun c => (0 <= c)%Z) cs /\ (cs <> [] -> (0 <= ic)%Z).
Proof.
  induction cs as [|oc cs IH]; intros ic; cbn [chain_ok].
  - split; [intros _; split; [constructor|congruence]|reflexivity].
  - rewrite !andb_true_iff, IH, !Z.leb_le. split.
    + intros [[Hic Hoc] [Hcs _]]. split; [now constructor|auto].
    + intros [Hall Hic]. apply Forall_cons_iff in Hall. destruct Hall as [Hoc Hcs].
      repeat split; auto. apply Hic. discriminate.
Qed.

Lemma last_nonneg (cs : list Z) (ic : Z) :
  Forall (fun c => (0 <= c)%Z) cs -> (0 <= ic)%Z -> (0 <= last cs ic)%Z.
Proof.
  revert ic. induction cs as [|c cs IH]; intros ic Hall Hic; [exact Hic|].
  apply Forall_cons_iff in Hall. destruct Hall as [Hc Hcs].
  rewrite last_cons. now apply IH.
Qed.

Lemma stages_chain_ok_true (channels : list (list Z)) :
  forall ic,
    (stages_chain_ok ic channels && (0 <=? last (List.concat channels) ic)%Z) = true
    <-> (0 <= ic)%Z /\ Forall (Forall (fun c => (0 <= c)%Z)) channels.
Proof.
  induction channels as [|cs rest IH]; intros ic;
    cbn [stages_chain_ok List.concat].
  - cbn [andb last]. rewrite Z.leb_le. split; [auto|tauto].
  - rewrite last_app_default, <- andb_assoc, andb_true_iff, IH, chain_ok_true.
    split.
    + intros [[Hcs Hic] [Hlast Hrest]]. split; [|now constructor].
      destruct cs as [|c cs]; [exact Hlast|apply Hic; discriminate].
    + intros [Hic Hall]. apply Forall_cons_iff in Hall. destruct Hall as [Hcs Hrest].
      repeat split; auto. now apply last_nonneg.
Qed.

Lemma sizes_accepted_ok (channels : list (list Z)) (ic nc : Z) :
  (stages_chain_ok ic channels
   && (0 <=? last (List.concat channels) ic)%Z && (0 <=? nc)%Z) = true
  <-> sizes_accepted channels ic nc.
Proof.
  rewrite andb_true_iff, stages_chain_ok_true, Z.leb_le.
  unfold sizes_accepted. tauto.
Qed.

(** The constructor call returns a network exactly on accepted sizes, the
    network [DarkNet_init] assembles, and raises on the others. *)
Lemma DarkNet_new_cases (channels : list (list Z)) (odd_pointwise : bool)
    (avg_pool_size : nat) (cls_activ : bool) (ic nc : Z) :
  (sizes_accepted channels ic nc
   /\ DarkNet_new channels odd_pointwise avg_pool_size cls_activ ic nc
      = Ok (DarkNet_init (table_nat channels) odd_pointwise avg_pool_size
              cls_activ (Z.to_nat ic) (Z.to_nat nc)))
  \/ (~ sizes_accepted channels ic nc
      /\ DarkNet_new channels odd_pointwise avg_pool_size cls_activ ic nc
         = Raise negative_dimension).
Proof.
  rewrite DarkNet_new_eq.
  destruct (stages_chain_ok ic channels
            && (0 <=? last (List.concat channels) ic)%Z && (0 <=? nc)%Z) eqn:E.
  - left. split; [now apply sizes_accepted_ok|reflexivity].
  - right. split; [|reflexivity].
    intros H. apply sizes_accepted_ok in H. congruence.
Qed.

Lemma table_nat_of_nat (channels : list (list nat)) :
  table_nat (map (map Z.of_nat) channels) = channels.
Proof.
  unfold table_nat. rewrite map_map. rewrite <- (map_id channels) at 2.
  apply map_ext. intros cs. rewrite map_map. rewrite <- (map_id cs) at 2.
  apply map_ext. intros c. apply Nat2Z.id.
Qed.

Lemma table_of_nat_accepted (channels : list (list nat)) :
  Forall (Forall (fun c => (0 <= c)%Z)) (map (map Z.of_nat) channels).
Proof.
  apply Forall_forall. intros cs Hcs. apply in_map_iff in Hcs.
  destruct Hcs as (cs' & <- & _). apply Forall_forall. intros c Hc.
  apply in_map_iff in Hc. destruct Hc as (c' & <- & _). lia.
Qed.
(** ** Channel threading: the convolutions in forward order *)

Lemma unit_convs_app (s t : Stage) :
  unit_convs (s ++ t)%list = (unit_convs s ++ unit_convs t)%list.
Proof. apply flat_map_app. Qed.

Lemma unit_convs_pool (len i : nat) : unit_convs (pool_of len i) = [].
Proof. unfold pool_of. now destruct (negb _). Qed.

Lemma dark_convYxY_channels (ic oc : nat) (pointwise : bool) :
  nn.in_channels (conv (dark_convYxY ic oc pointwise)) = ic
  /\ nn.out_channels (conv (dark_convYxY ic oc pointwise)) = oc.
Proof. now destruct pointwise. Qed.

Lemma unit_convs_unit (nm : string) (u : DarkConv) (rest : Stage) :
  unit_convs ((nm, Unit u) :: rest) = conv u :: unit_convs rest.
Proof. reflexivity. Qed.

Lemma units_of_out (odd_pointwise : bool) (n : nat) (cs : list nat) :
  forall j ic,
    map nn.out_channels (unit_convs (units_of odd_pointwise n j cs ic)) = cs.
Proof.
  induction cs as [|oc cs IH]; intros j ic; [reflexivity|].
  cbn [units_of]. rewrite unit_convs_unit. cbn [map].
  rewrite (proj2 (dark_convYxY_channels ic oc _)). f_equal. apply IH.
Qed.

Lemma units_of_in_chain (odd_pointwise : bool) (n : nat) (cs : list nat) :
  forall j ic,
    (map nn.in_channels (unit_convs (units_of odd_pointwise n j cs ic))
     ++ [last cs ic])%list = ic :: cs.
Proof.
  induction cs as [|oc cs IH]; intros j ic; [reflexivity|].
  cbn [units_of]. rewrite unit_convs_unit. cbn [map].
  rewrite (proj1 (dark_convYxY_channels ic oc _)), last_cons.
  rewrite <- app_comm_cons. f_equal. apply IH.
Qed.

Lemma stages_of_out (odd_pointwise : bool) (len : nat) (channels : list (list nat)) :
  forall i ic,
    map nn.out_channels
      (flat_map (fun s => unit_convs (snd s))
         (stages_of odd_pointwise len i channels ic))
    = List.concat channels.
Proof.
  induction channels as [|cs rest IH]; intros i ic; [reflexivity|].
  cbn [stages_of flat_map snd List.concat].
  rewrite map_app, unit_convs_app, unit_convs_pool, app_nil_r, units_of_out.
  f_equal. apply IH.
Qed.

Lemma stages_of_in_chain (odd_pointwise : bool) (len : nat)
    (channels : list (list nat)) :
  forall i ic,
    (map nn.in_channels
       (flat_map (fun s => unit_convs (snd s))
          (stages_of odd_pointwise len i channels ic))
     ++ [channels_out channels ic])%list
    = ic :: List.concat channels.
Proof.
  induction channels as [|cs rest IH]; intros i ic; [reflexivity|].
  cbn [stages_of flat_map snd List.concat channels_out].
  rewrite map_app, unit_convs_app, unit_convs_pool, app_nil_r, <- app_assoc.
  rewrite IH. change (last cs ic :: List.concat rest) with ([last cs ic] ++ List.concat rest)%list.
  rewrite app_assoc, units_of_in_chain. reflexivity.
Qed.

Lemma channel_chain (channels : list (list nat)) (odd_pointwise : bool)
    (avg_pool_size : nat) (cls_activ : bool) (in_channels num_classes : nat) :
  let net := DarkNet_init channels odd_pointwise avg_pool_size cls_activ
               in_channels num_classes in
  map nn.out_channels (feature_convs net) = List.concat channels
  /\ map nn.in_channels (feature_convs net ++ head_convs net)%list
     = in_channels :: List.concat channels
  /\ map nn.out_channels (head_convs net) = [num_classes].
Proof.
  intros net. unfold net, feature_convs, head_convs.
  rewrite DarkNet_init_closed. cbn [features output].
  assert (flat_map (fun nm => match snd nm with FinalConv c => [c] | _ => [] end)
            (output_of avg_pool_size cls_activ
               (channels_out channels in_channels) num_classes)
          = [nn.mkConv2d (channels_out channels in_channels) num_classes 1 1 0 true])
    as ->.
  { unfold output_of. now destruct cls_activ. }
  split; [apply stages_of_out|]. split; [|reflexivity].
  rewrite map_app. apply stages_of_in_chain.
Qed.

(** ** The variant factory (C5, C9) *)

Lemma version_config_supported (version : string) :
  In version supported_versions ->
  exists cfg, version_config version = Ok cfg.
Proof.
  intros [<-|[<-|[<-|[]]]]; eexists; reflexivity.
Qed.

Lemma version_config_unsupported (version : string) :
  ~ In version supported_versions ->
  version_config version
  = Raise (ValueError ("Unsupported DarkNet version " ++ version)).
Proof.
  intros Hnot. unfold version_config.
  destruct (String.eqb_spec version "ref") as [->|_];
    [exfalso; apply Hnot; simpl; auto|].
  destruct (String.eqb_spec version "tiny") as [->|_];
    [exfalso; apply Hnot; simpl; auto|].
  destruct (String.eqb_spec version "19") as [->|_];
    [exfalso; apply Hnot; simpl; auto|].
  reflexivity.
Qed.

Lemma supported_dec (version : string) :
  {In version supported_versions} + {~ In version supported_versions}.
Proof. apply in_dec, string_dec. Defined.

(** *** The constructor call with keyword arguments *)

Lemma find_none_Forall {A : Type} (f : A -> bool) (l : list A) :
  Forall (fun x => f x = false) l -> find f l = None.
Proof.
  induction 1 as [|x l Hx _ IH]; cbn [find]; [reflexivity|].
  now rewrite Hx.
Qed.

Lemma DarkNet_call_cases (channels : list (list Z)) (odd_pointwise : bool)
    (avg_pool_size : nat) (cls_activ : bool) (kw : kwargs) :
  (Forall (fun kv => fst kv = "in_channels" \/ fst kv = "num_classes") kw
   /\ DarkNet_call channels odd_pointwise avg_pool_size cls_activ kw
      = DarkNet_new channels odd_pointwise avg_pool_size cls_activ
          (kw_in_Z kw) (kw_classes_Z kw))
  \/ (~ Forall (fun kv => fst kv = "in_channels" \/ fst kv = "num_classes") kw
      /\ exists msg,
          DarkNet_call channels odd_pointwise avg_pool_size cls_activ kw
          = Raise (TypeError msg)).
Proof.
  unfold DarkNet_call.
  destruct (find (one_of ["channels"; "odd_pointwise"; "avg_pool_size"; "cls_activ"])
              kw) as [[k v]|] eqn:Edup.
  - right. split; [|eexists; reflexivity].
    intros Hall. apply find_some in Edup. destruct Edup as [Hin Hk].
    rewrite Forall_forall in Hall.
    destruct (Hall _ Hin) as [E|E]; cbn [fst] in E; subst k; discriminate Hk.
  - destruct (find (fun kv => negb (one_of ["in_channels"; "num_classes"] kv)) kw)
      as [[k v]|] eqn:Eunk.
    + right. split; [|eexists; reflexivity].
      intros Hall. apply find_some in Eunk. destruct Eunk as [Hin Hk].
      rewrite Forall_forall in Hall.
      destruct (Hall _ Hin) as [E|E]; cbn [fst] in E; subst k; discriminate Hk.
    + left. split; [|reflexivity].
      apply Forall_forall. intros [k v] Hin.
      pose proof (find_none _ _ Eunk _ Hin) as Hk.
      apply negb_false_iff in Hk. unfold one_of in Hk. cbn [fst existsb] in Hk |- *.
      rewrite orb_false_r in Hk. apply orb_true_iff in Hk.
      destruct Hk as [Hk|Hk]; apply String.eqb_eq in Hk; auto.
Qed.

Lemma kwargs_sizes_accepted (channels : list (list nat)) (kw : kwargs) :
  sizes_accepted (map (map Z.of_nat) channels) (kw_in_Z kw) (kw_classes_Z kw)
  <-> (forall v, kwargs_get kw "in_channels" = Some v -> (0 <= v)%Z)
      /\ (forall v, kwargs_get kw "num_classes" = Some v -> (0 <= v)%Z).
Proof.
  unfold sizes_accepted, kw_in_Z, kw_classes_Z.
  pose proof (table_of_nat_accepted channels) as Ht.
  destruct (kwargs_get kw "in_channels") as [a|],
    (kwargs_get kw "num_classes") as [b|]; split.
  all: try (intros (Ha & Hb & _); split; intros v E; inversion E; subst; lia).
  all: intros [Ha Hb]; repeat split;
    try exact Ht; try lia; try (now apply Ha); try (now apply Hb).
Qed.

Lemma kw_sizes (kw : kwargs) :
  Z.to_nat (kw_in_Z kw) = kw_in kw /\ Z.to_nat (kw_classes_Z kw) = kw_classes kw.
Proof.
  unfold kw_in_Z, kw_classes_Z, kw_in, kw_classes.
  destruct (kwargs_get kw "in_channels"), (kwargs_get kw "num_classes");
    split; reflexivity.
Qed.

(** What [get_darknet] does once the version is known and no pretrained
    weights are asked for: it returns the assembled network when the
    keyword arguments are accepted and raises another error than
    [ValueError] when they are not. *)
Lemma get_darknet_constructs (cfg : config) (kw : kwargs) :
  let r := DarkNet_call (map (map Z.of_nat) (cfg_channels cfg))
             (cfg_odd_pointwise cfg) (cfg_avg_pool_size cfg) (cfg_cls_activ cfg) kw in
  (kwargs_accepted kw
   /\ r = Ok (DarkNet_init (cfg_channels cfg) (cfg_odd_pointwise cfg)
                (cfg_avg_pool_size cfg) (cfg_cls_activ cfg)
                (kw_in kw) (kw_classes kw)))
  \/ (~ kwargs_accepted kw
      /\ ((exists msg, r = Raise (TypeError msg)) \/ r = Raise negative_dimension)).
Proof.
  intros r. unfold r, kwargs_accepted.
  destruct (DarkNet_call_cases (map (map Z.of_nat) (cfg_channels cfg))
              (cfg_odd_pointwise cfg) (cfg_avg_pool_size cfg) (cfg_cls_activ cfg)
              kw) as [[Hkeys ->]|[Hkeys Herr]].
  - destruct (DarkNet_new_cases (map (map Z.of_nat) (cfg_channels cfg))
                (cfg_odd_pointwise cfg) (cfg_avg_pool_size cfg) (cfg_cls_activ cfg)
                (kw_in_Z kw) (kw_classes_Z kw)) as [[Hs ->]|[Hs ->]].
    + left. split; [split; [exact Hkeys|now apply kwargs_sizes_accepted in Hs]|].
      rewrite table_nat_of_nat.
      destruct (kw_sizes kw) as [-> ->]. reflexivity.
    + right. split; [|now right].
      intros [_ Hv]. apply Hs. now apply kwargs_sizes_accepted.
  - right. split; [tauto|now left].
Qed.

Lemma get_darknet_ok (version : string) (pretrained : bool) (kw : kwargs)
    (net : DarkNet) :
  get_darknet version pretrained kw = Ok net ->
  exists cfg,
    version_config version = Ok cfg /\ pretrained = false /\ kwargs_accepted kw
    /\ net = DarkNet_init (cfg_channels cfg) (cfg_odd_pointwise cfg)
               (cfg_avg_pool_size cfg) (cfg_cls_activ cfg)
               (kw_in kw) (kw_classes kw).
Proof.
  unfold get_darknet. destruct (version_config version) as [cfg|e];
    cbn [bind]; [|discriminate].
  destruct pretrained; [discriminate|]. intros E. exists cfg.
  destruct (get_darknet_constructs cfg kw) as [[Hacc E']|[_ [(msg & E')|E']]];
    rewrite E' in E; try discriminate E.
  injection E as <-. auto.
Qed.





Example get_darknet_negative_size :
  get_darknet "ref" false [("in_channels", (-1)%Z)] = Raise negative_dimension.
Proof. reflexivity. Qed.

Example get_darknet_bogus :
  get_darknet "bogus_version" false no_kwargs
  = Raise (ValueError "Unsupported DarkNet version bogus_version").
Proof. reflexivity. Qed.

Example get_darknet_ref_pretrained :
  get_darknet "ref" true no_kwargs
  = Raise (ValueError "Pretrained model is not supported").
Proof. reflexivity. Qed.

(** C9: when [get_darknet] is called with both an unrecognized version name
    and [pretrained=True], the unsupported-version error is the one raised:
    version validation precedes the pretrained check, so the pretrained
    error can only be observed for a recognized version name. *)
Theorem version_error_precedes_pretrained (version : string) (pretrained : bool)
    (kw : kwargs) :
  (~ In version supported_versions ->
   get_darknet version true kw
   = Raise (ValueError ("Unsupported DarkNet version " ++ version)))
  /\ (get_darknet version pretrained kw
      = Raise (ValueError "Pretrained model is not supported") ->
      In version supported_versions /\ pretrained = true).
Proof.
  unfold get_darknet. split.
  - intros Hnot. now rewrite (version_config_unsupported version Hnot).
  - destruct (supported_dec version) as [Hin|Hnot].
    + destruct (version_config_supported version Hin) as (cfg & ->). cbn [bind].
      destruct pretrained; [auto|]. intros E. exfalso.
      destruct (get_darknet_constructs cfg kw) as [[_ E']|[_ [(m & E')|E']]];
        rewrite E' in E; discriminate E.
    + rewrite (version_config_unsupported version Hnot). cbn [bind].
      intros E. discriminate E.
Qed.

Lemma version_error_precedes_pretrained_witness :
  get_darknet "darknet53" true no_kwargs
  = Raise (ValueError "Unsupported DarkNet version darknet53").
Proof.
  apply (version_error_precedes_pretrained "darknet53" true no_kwargs).
  intros [E|[E|[E|[]]]]; discriminate E.
Defined.

(** ** Parameter counts (C4) *)

(** C4: for each of the three variants, the number of trainable parameters
    of the constructed network (with default in_channels=3 and
    num_classes=1000) equals the exact fixed value: ref -> 7,319,416;
    tiny -> 1,042,104; 19 -> 20,842,376. *)
Theorem variant_weight_counts :
  (exists net, darknet_ref no_kwargs = Ok net /\ weight_count net = 7319416%Z)
  /\ (exists net, darknet_tiny no_kwargs = Ok net /\ weight_count net = 1042104%Z)
  /\ (exists net, darknet19 no_kwargs = Ok net /\ weight_count net = 20842376%Z).
Proof.
  split; [|split]; eexists; (split; [reflexivity|]); vm_compute; reflexivity.
Qed.

(** ** Output shape (C8) *)

(** C8: for each of the three variants built with default arguments,
    forward applied to an input tensor of shape (1, 3, 224, 224) yields an
    output of shape (1, 1000); after the stages' downsampling the remaining
    spatial extent equals the variant's avg_pool_size (3, 14, and 7
    respectively), so the head's average pool leaves one location per
    class channel. *)
Theorem variant_forward_shapes :
  test_shapes darknet_ref = Ok ([1; 1024; 3; 3], [3], [1; 1000])
  /\ test_shapes darknet_tiny = Ok ([1; 128; 14; 14], [14], [1; 1000])
  /\ test_shapes darknet19 = Ok ([1; 1024; 7; 7], [7], [1; 1000]).
Proof. repeat split; vm_compute; reflexivity. Qed.

(** ** The constructor validates nothing (C10) *)


Lemma window_pointwise (h : nat) :
  window h 1 1 0 = if h =? 0 then Raise (RuntimeError "output size is too small")
                   else Ok h.
Proof.
  unfold window. cbn [Nat.eqb orb].
  destruct (Nat.ltb_spec (h + 2 * 0) 1); destruct (Nat.eqb_spec h 0);
    try lia; [reflexivity|].
  f_equal. rewrite Nat.div_1_r. lia.
Qed.

(** The head is its convolution, then its pooling; the activation between
    them, when there is one, keeps the shape. *)
Lemma head_forward_steps (aps : nat) (cls_activ : bool) (ic nc : nat)
    (x : list nat) :
  Sequential_forward OutputModule_forward (output_of aps cls_activ ic nc) x
  = (y <- Conv2d_forward (nn.mkConv2d ic nc 1 1 0 true) x ;;
     pool_forward aps 1 y).
Proof.
  destruct cls_activ;
    [change (output_of aps true ic nc)
       with [("final_conv", FinalConv (nn.mkConv2d ic nc 1 1 0 true));
             ("final_activ", FinalActiv (nn.mkLeakyReLU (1 # 10) true));
             ("final_pool", FinalPool (nn.mkAvgPool2d aps 1))]
    |change (output_of aps false ic nc)
       with [("final_conv", FinalConv (nn.mkConv2d ic nc 1 1 0 true));
             ("final_pool", FinalPool (nn.mkAvgPool2d aps 1))]];
    cbn [Sequential_forward OutputModule_forward];
    destruct (Conv2d_forward _ x) as [y|e]; cbn [bind]; try reflexivity;
    cbn [LeakyReLU_forward bind nn.ap_kernel_size nn.ap_stride];
    destruct (pool_forward aps 1 y); reflexivity.
Qed.






(** A pooling size smaller than the remaining extent is not refused even by
    [forward]; it shows as an output that is not one score per class. *)
Example undersized_avg_pool_changes_output :
  forward (DarkNet_init [[32]; [64]; [128; 64; 128]; [256; 128; 256];
                         [512; 256; 512; 256; 512];
                         [1024; 512; 1024; 512; 1024]] false 6 false 3 1000)
    [1; 3; 224; 224] = Ok [1; 4000].
Proof. vm_compute. reflexivity. Qed.

(** ** Initialization policy (C7) *)

(** *** Characters of module paths *)

Lemma has_char_app (c : ascii) (a b : string) :
  has_char c (a ++ b) = has_char c a || has_char c b.
Proof.
  induction a as [|x a IH]; simpl; [reflexivity|].
  now rewrite IH, orb_assoc.
Qed.

Lemma prefix_app (s1 : string) :
  forall s2, String.prefix s1 s2 = true -> exists rest, s2 = s1 ++ rest.
Proof.
  induction s1 as [|a s1 IH]; intros s2 H.
  - exists s2. reflexivity.
  - destruct s2 as [|b s2]; simpl in H; [discriminate|].
    destruct (ascii_dec a b) as [->|_]; [|discriminate].
    destruct (IH s2 H) as (rest & ->). exists rest. reflexivity.
Qed.

Lemma contains_has_char (c : ascii) (sub : string) :
  has_char c sub = true ->
  forall s, contains sub s = true -> has_char c s = true.
Proof.
  intros Hc s. induction s as [|a s IH]; cbn [contains]; intros H.
  - destruct sub; [discriminate Hc|discriminate H].
  - apply orb_true_iff in H. destruct H as [H|H].
    + apply prefix_app in H. destruct H as (rest & E).
      rewrite E, has_char_app, Hc. reflexivity.
    + cbn [has_char]. rewrite (IH H). apply orb_true_r.
Qed.

Lemma string_of_uint_no_underscore (d : uint) :
  has_char "_" (NilEmpty.string_of_uint d) = false.
Proof. induction d; simpl; auto. Qed.

Lemma fmt_no_underscore (n : nat) : has_char "_" (fmt n) = false.
Proof. apply string_of_uint_no_underscore. Qed.

Lemma submodule_prefix_no_underscore (prefix name : string) :
  has_char "_" prefix = false -> has_char "_" name = false ->
  has_char "_" (submodule_prefix prefix name) = false.
Proof.
  intros Hp Hn. unfold submodule_prefix.
  rewrite !has_char_app, Hp, Hn. now destruct (String.eqb prefix "").
Qed.

(** *** The modules a traversal meets *)

Lemma Sequential_named_modules_in {A : Type}
    (child : string -> A -> list (string * Module))
    (prefix : string) (self : nn.Sequential A) (x : string * Module) :
  In x (Sequential_named_modules child prefix self) ->
  x = (prefix, AnySequential)
  \/ exists nm m, In (nm, m) self /\ In x (child (submodule_prefix prefix nm) m).
Proof.
  unfold Sequential_named_modules. intros [E|Hin]; [now left|right].
  apply in_flat_map in Hin. destruct Hin as ([nm m] & Hself & Hx).
  exists nm, m. auto.
Qed.

Lemma stages_of_in (odd_pointwise : bool) (len : nat) (channels : list (list nat)) :
  forall (i0 ic : nat) (sname : string) (stage : Stage),
    In (sname, stage) (stages_of odd_pointwise len i0 channels ic) ->
    exists i cs ic',
      sname = "stage" ++ fmt (i + 1)
      /\ stage = (units_of odd_pointwise (List.length cs) 0 cs ic'
                  ++ pool_of len i)%list.
Proof.
  induction channels as [|c channels IH]; intros i0 ic sname stage; simpl; [tauto|].
  intros [E|Hin].
  - injection E as <- <-. exists i0, c, ic. auto.
  - eapply IH. exact Hin.
Qed.

Example unit_conv_name_3_2 : unit_conv_name 3 2 = "features.stage3.unit2.conv".
Proof. reflexivity. Qed.

Lemma unit_conv_name_no_underscore (i j : nat) :
  has_char "_" (unit_conv_name i j) = false.
Proof.
  unfold unit_conv_name.
  repeat apply submodule_prefix_no_underscore;
    try reflexivity; rewrite has_char_app, fmt_no_underscore; reflexivity.
Qed.

Lemma unit_conv_name_not_final (i j : nat) :
  contains "final_conv" (unit_conv_name i j) = false
  /\ unit_conv_name i j <> "output.final_conv".
Proof.
  pose proof (unit_conv_name_no_underscore i j) as Hno. split.
  - destruct (contains "final_conv" (unit_conv_name i j)) eqn:E; [|reflexivity].
    apply (contains_has_char "_") in E; [congruence|reflexivity].
  - intros E. rewrite E in Hno. discriminate Hno.
Qed.

(** Every convolution of an assembled network is either the head's
    [final_conv], built with a bias, or the bias-free convolution of a
    unit. *)
Lemma named_conv_cases (channels : list (list nat)) (odd_pointwise : bool)
    (avg_pool_size : nat) (cls_activ : bool) (in_channels num_classes : nat)
    (name : string) (c : nn.Conv2d) :
  In (name, AnyConv2d c)
     (named_modules (DarkNet_init channels odd_pointwise avg_pool_size cls_activ
                       in_channels num_classes)) ->
  (name = "output.final_conv"
   /\ c = nn.mkConv2d (channels_out channels in_channels) num_classes 1 1 0 true)
  \/ (exists i j, name = unit_conv_name i j /\ nn.bias c = false).
Proof.
  rewrite DarkNet_init_closed. unfold named_modules. cbn [features output].
  intros [E|Hin]; [discriminate E|].
  apply in_app_or in Hin. destruct Hin as [Hin|Hin].
  - right.
    apply Sequential_named_modules_in in Hin.
    destruct Hin as [E|(sname & stage & Hst & Hin)]; [discriminate E|].
    apply stages_of_in in Hst. destruct Hst as (i & cs & ic' & -> & ->).
    apply Sequential_named_modules_in in Hin.
    destruct Hin as [E|(uname & sm & Hu & Hin)]; [discriminate E|].
    apply in_app_or in Hu. destruct Hu as [Hu|Hu].
    + apply units_of_in in Hu. destruct Hu as (j & ic'' & oc & _ & -> & ->).
      exists (i + 1), (0 + j + 1).
      cbn [StageModule_named_modules DarkConv_named_modules In] in Hin.
      destruct Hin as [E|[E|[E|[E|[]]]]]; try discriminate E.
      injection E as <- <-. split; [reflexivity|].
      now destruct (pointwise_arg _ _ _).
    + unfold pool_of in Hu. destruct (negb _); [|destruct Hu].
      destruct Hu as [E|[]]. injection E as <- <-.
      destruct Hin as [E|[]]. discriminate E.
  - left.
    apply Sequential_named_modules_in in Hin.
    destruct Hin as [E|(nm & m & Hm & Hin)]; [discriminate E|].
    unfold output_of in Hm.
    destruct cls_activ; cbn [app In] in Hm;
      repeat (destruct Hm as [Hm|Hm]; [injection Hm as <- <-|]);
      try destruct Hm;
      destruct Hin as [E|[]]; try discriminate E;
      injection E as <- <-; auto.
Qed.

Lemma final_conv_named (channels : list (list nat)) (odd_pointwise : bool)
    (avg_pool_size : nat) (cls_activ : bool) (in_channels num_classes : nat) :
  In ("output.final_conv",
      AnyConv2d (nn.mkConv2d (channels_out channels in_channels) num_classes 1 1 0 true))
     (named_modules (DarkNet_init channels odd_pointwise avg_pool_size cls_activ
                       in_channels num_classes)).
Proof.
  rewrite DarkNet_init_closed. unfold named_modules. cbn [features output].
  right. apply in_or_app. right. right. left. reflexivity.
Qed.

Lemma init_params_in (net : DarkNet) (name : string) (p : param) (init : initializer) :
  In (name, p, init) (_init_params net)
  <-> exists c,
        In (name, AnyConv2d c) (named_modules net)
        /\ In (name, p, init) (init_module name (AnyConv2d c)).
Proof.
  unfold _init_params. rewrite in_flat_map. split.
  - intros ([nm m] & Hm & Hin). cbn [fst snd] in Hin.
    destruct m; try (destruct Hin; fail).
    assert (nm = name) as ->.
    { cbn [init_module] in Hin. destruct Hin as [E|Hin]; [congruence|].
      destruct (nn.bias c); [|destruct Hin].
      destruct Hin as [E|[]]. congruence. }
    exists c. auto.
  - intros (c & Hm & Hin). exists (name, AnyConv2d c). auto.
Qed.

Section InitPolicy.

Variables (channels : list (list nat)) (odd_pointwise : bool)
          (avg_pool_size : nat) (cls_activ : bool)
          (in_channels num_classes : nat).

Let net : DarkNet :=
  DarkNet_init channels odd_pointwise avg_pool_size cls_activ
    in_channels num_classes.

Let head : nn.Conv2d :=
  nn.mkConv2d (channels_out channels in_channels) num_classes 1 1 0 true.

(** On the convolutions of the network the substring test of the source
    singles out the path [output.final_conv]. *)
Lemma final_conv_test (name : string) (c : nn.Conv2d) :
  In (name, AnyConv2d c) (named_modules net) ->
  contains "final_conv" name = String.eqb name "output.final_conv".
Proof.
  intros Hin. apply named_conv_cases in Hin.
  destruct Hin as [[-> _]|(i & j & -> & _)]; [reflexivity|].
  destruct (unit_conv_name_not_final i j) as [-> Hne].
  symmetry. now apply String.eqb_neq.
Qed.

Lemma bias_only_on_final_conv (name : string) (c : nn.Conv2d) :
  In (name, AnyConv2d c) (named_modules net) ->
  (nn.bias c = true <-> name = "output.final_conv")
  /\ (name = "output.final_conv" -> c = head).
Proof.
  intros Hin. apply named_conv_cases in Hin.
  destruct Hin as [[-> ->]|(i & j & -> & Hb)].
  - repeat split; reflexivity.
  - destruct (unit_conv_name_not_final i j) as [_ Hne].
    repeat split; intros H; congruence.
Qed.

Lemma weight_init_of (name : string) (c : nn.Conv2d) (init : initializer) :
  In (name, weight, init) (init_module name (AnyConv2d c))
  <-> init = if contains "final_conv" name then normal_ 0 (1 # 100)
             else kaiming_uniform_.
Proof.
  cbn [init_module]. split.
  - intros [E|Hin]; [now injection E as <-|].
    destruct (nn.bias c); [|destruct Hin].
    destruct Hin as [E|[]]. discriminate E.
  - intros ->. now left.
Qed.

Lemma bias_init_of (name : string) (c : nn.Conv2d) (init : initializer) :
  In (name, bias, init) (init_module name (AnyConv2d c))
  <-> nn.bias c = true /\ init = constant_ 0.
Proof.
  cbn [init_module]. split.
  - intros [E|Hin]; [discriminate E|].
    destruct (nn.bias c); [|destruct Hin].
    destruct Hin as [E|[]]. injection E as <-. auto.
  - intros [-> ->]. right. now left.
Qed.

(** C7: the parameter-initialization pass applies normal-distribution
    initialization (mean 0, standard deviation 0.01) to the weight of
    exactly the classifier head's final convolution, applies uniform
    He/Kaiming initialization to the weight of every other convolution
    layer, and sets every present convolution bias to the constant 0.
    The head's final convolution is the module at path
    [output.final_conv]; the pass touches convolutions only. *)
Theorem init_params_policy (name : string) (c : nn.Conv2d) :
  In (name, AnyConv2d c) (named_modules net) ->
  In ("output.final_conv", AnyConv2d head) (named_modules net)
  /\ (name = "output.final_conv" -> c = head)
  /\ (forall init,
        In (name, weight, init) (_init_params net)
        <-> init = if String.eqb name "output.final_conv"
                   then normal_ 0 (1 # 100) else kaiming_uniform_)
  /\ (forall init,
        In (name, bias, init) (_init_params net)
        <-> nn.bias c = true /\ init = constant_ 0)
  /\ (forall name' p init,
        In (name', p, init) (_init_params net) ->
        exists c', In (name', AnyConv2d c') (named_modules net)).
Proof.
  intros Hin.
  destruct (bias_only_on_final_conv name c Hin) as [Hbias Hhead].
  split; [apply final_conv_named|]. split; [exact Hhead|].
  split; [|split].
  - intros init. rewrite init_params_in, <- (final_conv_test name c Hin).
    split.
    + intros (c' & _ & Hcall). now apply weight_init_of in Hcall.
    + intros E. exists c. split; [exact Hin|]. now apply weight_init_of.
  - intros init. rewrite init_params_in. split.
    + intros (c' & Hin' & Hcall). apply bias_init_of in Hcall.
      destruct Hcall as [Hb' ->]. split; [|reflexivity].
      apply Hbias. now apply (bias_only_on_final_conv name c' Hin').
    + intros E. exists c. split; [exact Hin|]. now apply bias_init_of.
  - intros name' p init Hcall. apply init_params_in in Hcall.
    destruct Hcall as (c' & Hin' & _). exists c'. exact Hin'.
Qed.

End InitPolicy.

Lemma init_params_policy_witness :
  let net := DarkNet_init [[16]; [32; 64]] false 3 true 3 1000 in
  In ("output.final_conv", AnyConv2d (nn.mkConv2d 64 1000 1 1 0 true))
     (named_modules net)
  /\ ("features.stage2.unit1.conv" = "output.final_conv" ->
      nn.mkConv2d 16 32 3 1 1 false = nn.mkConv2d 64 1000 1 1 0 true)
  /\ (forall init,
        In ("features.stage2.unit1.conv", weight, init) (_init_params net)
        <-> init = kaiming_uniform_)
  /\ (forall init,
        In ("features.stage2.unit1.conv", bias, init) (_init_params net)
        <-> false = true /\ init = constant_ 0)
  /\ (forall name' p init,
        In (name', p, init) (_init_params net) ->
        exists c', In (name', AnyConv2d c') (named_modules net)).
Proof.
  apply (init_params_policy [[16]; [32; 64]] false 3 true 3 1000
           "features.stage2.unit1.conv" (nn.mkConv2d 16 32 3 1 1 false)).
  simpl. do 10 right. left. reflexivity.
Defined.

Example init_params_tiny_trace :
  _init_params (DarkNet_init [[16]; [32; 64]] false 3 true 3 1000)
  = [("features.stage1.unit1.conv", weight, kaiming_uniform_);
     ("features.stage2.unit1.conv", weight, kaiming_uniform_);
     ("features.stage2.unit2.conv", weight, kaiming_uniform_);
     ("output.final_conv", weight, normal_ 0 (1 # 100));
     ("output.final_conv", bias, constant_ 0)].
Proof. reflexivity. Qed.

(** * Further properties of the assembled networks *)

(** ** Forward pass of one unit *)

Lemma window_spatial (h : nat) :
  window h 3 1 1 = if h =? 0 then Raise (RuntimeError "output size is too small")
                   else Ok h.
Proof.
  unfold window. cbn [Nat.eqb orb].
  destruct (Nat.ltb_spec (h + 2 * 1) 3); destruct (Nat.eqb_spec h 0);
    try lia; [reflexivity|].
  f_equal. rewrite Nat.div_1_r. lia.
Qed.

(** Whichever kernel a unit is built with, its window leaves a non-empty
    extent as it is and refuses an empty one. *)
Lemma unit_window (in_channels out_channels : nat) (pointwise : bool) (h : nat) :
  let c := conv (dark_convYxY in_channels out_channels pointwise) in
  window h (nn.kernel_size c) (nn.stride c) (nn.padding c)
  = if h =? 0 then Raise (RuntimeError "output size is too small") else Ok h.
Proof.
  destruct pointwise; cbn; [apply window_pointwise|apply window_spatial].
Qed.

Lemma DarkConv_forward_eq (training : bool) (ic oc : nat) (pointwise : bool)
    (n c h w : nat) :
  1 <= ic -> 1 <= oc ->
  DarkConv_forward training (dark_convYxY ic oc pointwise) [n; c; h; w]
  = if c =? ic then
      if h =? 0 then Raise (RuntimeError "output size is too small")
      else if w =? 0 then Raise (RuntimeError "output size is too small")
           else if training && (n * h * w =? 1)
                then Raise (ValueError
                              "Expected more than 1 value per channel when training")
                else Ok [n; oc; h; w]
    else Raise (RuntimeError "input channels do not match the weight").
Proof.
  intros Hic Hoc. unfold DarkConv_forward, Conv2d_forward, Conv2d_shape.
  rewrite !(unit_window ic oc pointwise).
  replace (nn.in_channels (conv (dark_convYxY ic oc pointwise))) with ic
    by (now destruct pointwise).
  replace (nn.out_channels (conv (dark_convYxY ic oc pointwise))) with oc
    by (now destruct pointwise).
  destruct (Nat.eqb_spec oc 0); [lia|]. destruct (Nat.eqb_spec ic 0); [lia|].
  destruct (c =? ic); [|reflexivity].
  destruct (h =? 0); [reflexivity|].
  destruct (w =? 0); [reflexivity|].
  cbn [bind Datatypes.app BatchNorm2d_forward].
  destruct (training && (n * h * w =? 1)); [reflexivity|].
  replace (nn.num_features (bn (dark_convYxY ic oc pointwise))) with oc
    by (now destruct pointwise).
  rewrite Nat.eqb_refl. now destruct (n * oc * h * w =? 0).
Qed.

(** X1: a unit with at least one input and one output channel, pointwise or
    spatial, returns a result on a 4D input exactly when the input has the
    unit's [in_channels], a height and a width of at least 1 and, in
    training mode, more than one value per channel; the result then has
    [out_channels] channels and the same height and width.  On every other
    4D input the unit raises. *)
Theorem DarkConv_forward_keeps_extent (training : bool) (ic oc : nat)
    (pointwise : bool) (n c h w : nat) (y : list nat) :
  1 <= ic ->
  1 <= oc ->
  (DarkConv_forward training (dark_convYxY ic oc pointwise) [n; c; h; w] = Ok y
   <-> c = ic /\ 1 <= h /\ 1 <= w /\ (training = true -> n * h * w <> 1)
       /\ y = [n; oc; h; w]).
Proof.
  intros Hic Hoc. rewrite DarkConv_forward_eq by assumption.
  destruct (Nat.eqb_spec c ic) as [->|Hc];
    [|split; [discriminate|intros [E _]; contradiction]].
  destruct (Nat.eqb_spec h 0) as [->|Hh];
    [split; [discriminate|intros (_ & H & _); lia]|].
  destruct (Nat.eqb_spec w 0) as [->|Hw];
    [split; [discriminate|intros (_ & _ & H & _); lia]|].
  destruct training; cbn [andb].
  - destruct (Nat.eqb_spec (n * h * w) 1) as [E1|E1].
    + split; [discriminate|]. intros (_ & _ & _ & H & _).
      exfalso. now apply H.
    + split.
      * intros E. injection E as <-. repeat split; auto; lia.
      * intros (_ & _ & _ & _ & ->). reflexivity.
  - split.
    + intros E. injection E as <-. repeat split; try lia; discriminate.
    + intros (_ & _ & _ & _ & ->). reflexivity.
Qed.

Lemma DarkConv_forward_keeps_extent_witness :
  DarkConv_forward true (dark_convYxY 3 16 false) [2; 3; 8; 8] = Ok [2; 16; 8; 8]
  /\ ~ DarkConv_forward true (dark_convYxY 3 16 false) [1; 3; 1; 1]
        = Ok [1; 16; 1; 1].
Proof.
  split.
  - apply (DarkConv_forward_keeps_extent true 3 16 false 2 3 8 8 [2; 16; 8; 8]);
      [lia|lia|].
    repeat split; try lia; try (intros _; cbn; lia).
  - intros E.
    apply (DarkConv_forward_keeps_extent true 3 16 false 1 3 1 1 [1; 16; 1; 1])
      in E; [|lia|lia].
    destruct E as (_ & _ & _ & H & _). now apply H.
Defined.
(** ** Channel threading *)

(** X2: the channel counts are threaded through the whole construction: the
    units output, in order, exactly the entries of the channel table; the
    first convolution takes the network's [in_channels] and every later
    one, the head's [final_conv] included, takes what the convolution
    before it outputs; the head outputs [num_classes]. *)
Theorem channels_threaded (channels : list (list nat)) (odd_pointwise : bool)
    (avg_pool_size : nat) (cls_activ : bool) (in_channels num_classes : nat) :
  let net := DarkNet_init channels odd_pointwise avg_pool_size cls_activ
               in_channels num_classes in
  map nn.out_channels (feature_convs net) = List.concat channels
  /\ map nn.in_channels (feature_convs net ++ head_convs net)%list
     = in_channels :: List.concat channels
  /\ map nn.out_channels (head_convs net) = [num_classes].
Proof. apply channel_chain. Qed.

(** X3: [get_darknet] hands the keyword arguments on to the constructor and
    nothing else of them: whatever they are, the units output the entries
    of the version's channel table; [in_channels] (3 when absent) is what
    the first convolution takes and [num_classes] (1000 when absent) what
    the head outputs. *)
Theorem get_darknet_threads_kwargs (version : string) (pretrained : bool)
    (kw : kwargs) (net : DarkNet) :
  get_darknet version pretrained kw = Ok net ->
  exists cfg,
    version_config version = Ok cfg
    /\ map nn.out_channels (feature_convs net) = List.concat (cfg_channels cfg)
    /\ map nn.in_channels (feature_convs net ++ head_convs net)%list
       = kw_in kw :: List.concat (cfg_channels cfg)
    /\ map nn.out_channels (head_convs net) = [kw_classes kw].
Proof.
  intros E. apply get_darknet_ok in E.
  destruct E as (cfg & Ecfg & _ & _ & ->). exists cfg.
  split; [exact Ecfg|]. apply channel_chain.
Qed.

Lemma get_darknet_threads_kwargs_witness :
  let net := DarkNet_init [[16]; [32]; [16; 128; 16; 128]; [32; 256; 32; 256];
                           [64; 512; 64; 512; 128]] true 14 false 1 1000 in
  exists cfg,
    version_config "tiny" = Ok cfg
    /\ map nn.out_channels (feature_convs net) = List.concat (cfg_channels cfg)
    /\ map nn.in_channels (feature_convs net ++ head_convs net)%list
       = 1 :: List.concat (cfg_channels cfg)
    /\ map nn.out_channels (head_convs net) = [1000].
Proof.
  apply (get_darknet_threads_kwargs "tiny" false [("in_channels", 1%Z)]).
  reflexivity.
Defined.

(** ** Forward pass of the feature stages *)

Lemma Sequential_forward_cons {A : Type}
    (child : A -> list nat -> result (list nat))
    (k : string) (m : A) (rest : nn.Sequential A) (x : list nat) :
  Sequential_forward child ((k, m) :: rest) x
  = (x' <- child m x ;; Sequential_forward child rest x').
Proof. reflexivity. Qed.

Lemma Sequential_forward_app {A : Type}
    (child : A -> list nat -> result (list nat)) (a b : nn.Sequential A) :
  forall x,
    Sequential_forward child (a ++ b)%list x
    = (x' <- Sequential_forward child a x ;; Sequential_forward child b x').
Proof.
  induction a as [|[k m] a IH]; intros x; [reflexivity|].
  rewrite <- app_comm_cons, !Sequential_forward_cons.
  destruct (child m x); [apply IH|reflexivity].
Qed.

Lemma window_pool (h : nat) :
  window h 2 2 0 = if h <? 2 then Raise (RuntimeError "output size is too small")
                   else Ok (h / 2).
Proof.
  unfold window. cbn [Nat.eqb orb].
  replace (h + 2 * 0) with h by lia.
  destruct (Nat.ltb_spec h 2); [reflexivity|].
  f_equal. replace h with (1 * 2 + (h - 2)) at 2 by lia.
  rewrite Nat.div_add_l by lia. lia.
Qed.

Lemma pow2_pos (k : nat) : 1 <= 2 ^ k.
Proof. induction k; simpl; lia. Qed.

Lemma half_pow2 (h k : nat) : h / 2 / 2 ^ k = h / 2 ^ S k.
Proof. now rewrite Nat.Div0.div_div, Nat.pow_succ_r'. Qed.

Lemma half_ge_pow2 (h k : nat) : 2 ^ S k <= h -> 2 ^ k <= h / 2.
Proof.
  intros H. apply Nat.div_le_lower_bound; [lia|].
  now rewrite <- Nat.pow_succ_r'.
Qed.

Lemma div_le_self (h d : nat) : 1 <= d -> h / d <= h.
Proof.
  intros Hd. pose proof (Nat.Div0.mul_div_le h d). nia.
Qed.

Lemma last_pos (cs : list nat) :
  forall ic, Forall (fun c => 1 <= c) cs -> 1 <= ic -> 1 <= last cs ic.
Proof.
  induction cs as [|c cs IH]; intros ic Hall Hic; [exact Hic|].
  apply Forall_cons_iff in Hall. destruct Hall as [Hc Hcs].
  rewrite last_cons. now apply IH.
Qed.

(** More than one value per channel at the smaller extent is more than one
    at the larger. *)
Lemma values_per_channel (n h w h' w' : nat) :
  h' <= h -> w' <= w -> 2 <= n * h' * w' -> n * h * w <> 1.
Proof.
  intros Hh Hw H2.
  assert (n * h' * w' <= n * h * w)
    by (apply Nat.mul_le_mono; [apply Nat.mul_le_mono; lia|lia]).
  lia.
Qed.

Section StageForward.

Variable odd_pointwise : bool.
Variable training : bool.

(** The units of a stage pass a well-formed input on, with the channel
    count of the last unit. *)
Lemma units_forward_ok (n0 : nat) (cs : list nat) :
  forall j ic n h w,
    1 <= ic -> Forall (fun c => 1 <= c) cs ->
    1 <= h -> 1 <= w ->
    (training = true -> n * h * w <> 1) ->
    Sequential_forward (StageModule_forward training)
      (units_of odd_pointwise n0 j cs ic) [n; ic; h; w]
    = Ok [n; last cs ic; h; w].
Proof.
  induction cs as [|oc cs IH]; intros j ic n h w Hic Hcs Hh Hw Hmode;
    [reflexivity|].
  apply Forall_cons_iff in Hcs. destruct Hcs as [Hoc Hcs].
  cbn [units_of]. rewrite Sequential_forward_cons.
  cbn [StageModule_forward].
  rewrite DarkConv_forward_eq by assumption. rewrite Nat.eqb_refl.
  destruct (Nat.eqb_spec h 0); [lia|]. destruct (Nat.eqb_spec w 0); [lia|].
  assert (training && (n * h * w =? 1) = false) as ->.
  { destruct training; [|reflexivity]. cbn [andb].
    apply Nat.eqb_neq. now apply Hmode. }
  cbn [bind]. rewrite last_cons. now apply IH.
Qed.

(** Whatever they are given, the units of a stage raise or keep the
    extent; they cannot pass on an input of another channel count. *)
Lemma units_forward_cases (n0 : nat) (cs : list nat) :
  forall j ic n c h w,
    1 <= ic -> Forall (fun c => 1 <= c) cs ->
    (exists e,
        Sequential_forward (StageModule_forward training)
          (units_of odd_pointwise n0 j cs ic) [n; c; h; w] = Raise e)
    \/ (exists c',
          Sequential_forward (StageModule_forward training)
            (units_of odd_pointwise n0 j cs ic) [n; c; h; w]
          = Ok [n; c'; h; w]
          /\ (c = ic -> c' = last cs ic)
          /\ (c <> ic -> c' = c /\ last cs ic = ic)).
Proof.
  induction cs as [|oc cs IH]; intros j ic n c h w Hic Hcs.
  - right. exists c. cbn. repeat split; auto.
  - apply Forall_cons_iff in Hcs. destruct Hcs as [Hoc Hcs].
    cbn [units_of]. rewrite Sequential_forward_cons.
    cbn [StageModule_forward]. rewrite DarkConv_forward_eq by assumption.
    destruct (Nat.eqb_spec c ic) as [->|Hc]; [|left; eexists; reflexivity].
    destruct (h =? 0); [left; eexists; reflexivity|].
    destruct (w =? 0); [left; eexists; reflexivity|].
    destruct (training && (n * h * w =? 1)); [left; eexists; reflexivity|].
    cbn [bind].
    destruct (IH (S j) oc n oc h w Hoc Hcs) as [(e & ->)|(c' & -> & Hsame & _)];
      [left; eexists; reflexivity|].
    right. exists c'. split; [reflexivity|]. split.
    + intros _. rewrite last_cons. now apply Hsame.
    + intros Hne. contradiction.
Qed.

Lemma pool_of_forward (len i n c h w : nat) :
  i + 1 <> len ->
  Sequential_forward (StageModule_forward training) (pool_of len i) [n; c; h; w]
  = if c =? 0 then Raise (RuntimeError "non-empty 3D or 4D input tensor expected")
    else if (h <? 2) || (w <? 2)
         then Raise (RuntimeError "output size is too small")
         else Ok [n; c; h / 2; w / 2].
Proof.
  intros Hi. unfold pool_of.
  destruct (Z.eqb_spec (Z.of_nat i) (Z.of_nat len - 1)); [lia|].
  cbn [negb]. rewrite Sequential_forward_cons.
  cbn [StageModule_forward nn.mp_kernel_size nn.mp_stride pool_forward].
  unfold pool_shape. destruct (c =? 0); [reflexivity|].
  rewrite !window_pool.
  destruct (h <? 2); [reflexivity|]. destruct (w <? 2); reflexivity.
Qed.

Lemma pool_of_absent (len i : nat) : i + 1 = len -> pool_of len i = [].
Proof.
  intros Hi. unfold pool_of.
  destruct (Z.eqb_spec (Z.of_nat i) (Z.of_nat len - 1)); [reflexivity|lia].
Qed.

(** The stages from position [i] on, given an input large enough for the
    poolings that are left. *)
Lemma stages_forward_ok (len : nat) (channels : list (list nat)) :
  forall i ic n h w,
    1 <= ic -> positive_table channels ->
    i + List.length channels = len ->
    2 ^ (List.length channels - 1) <= h ->
    2 ^ (List.length channels - 1) <= w ->
    (training = true ->
     2 <= n * (h / 2 ^ (List.length channels - 1))
          * (w / 2 ^ (List.length channels - 1))) ->
    Sequential_forward (Sequential_forward (StageModule_forward training))
      (stages_of odd_pointwise len i channels ic) [n; ic; h; w]
    = Ok [n; channels_out channels ic;
          h / 2 ^ (List.length channels - 1);
          w / 2 ^ (List.length channels - 1)].
Proof.
  induction channels as [|cs rest IH]; intros i ic n h w Hic Hpos Hlen Hh Hw Hmode.
  - cbn [stages_of Sequential_forward channels_out].
    change (2 ^ (@List.length (list nat) [] - 1)) with 1.
    now rewrite !Nat.div_1_r.
  - apply Forall_cons_iff in Hpos. destruct Hpos as [Hcs Hpos].
    cbn [stages_of channels_out]. rewrite Sequential_forward_cons.
    rewrite Sequential_forward_app.
    replace (List.length (cs :: rest) - 1) with (List.length rest) in *
      by (cbn [List.length]; lia).
    pose proof (pow2_pos (List.length rest)) as Hp.
    rewrite units_forward_ok; try assumption; try lia.
    2:{ intros Hm. specialize (Hmode Hm).
        apply (values_per_channel n h w _ _ (div_le_self h _ Hp)
                 (div_le_self w _ Hp) Hmode). }
    cbn [bind]. cbn [List.length] in Hlen.
    pose proof (last_pos cs ic Hcs Hic) as Hlast.
    destruct rest as [|cs' rest'].
    + rewrite pool_of_absent by (cbn [List.length] in Hlen; lia).
      cbn [stages_of Sequential_forward channels_out bind].
      change (2 ^ @List.length (list nat) []) with 1.
      now rewrite !Nat.div_1_r.
    + set (rest := cs' :: rest') in *.
      assert (List.length rest = S (List.length rest - 1)) as Hk
        by (subst rest; cbn [List.length]; lia).
      rewrite pool_of_forward by lia.
      destruct (Nat.eqb_spec (last cs ic) 0); [lia|].
      assert (2 <= h /\ 2 <= w) as [Hh2 Hw2].
      { rewrite Hk, Nat.pow_succ_r' in Hh, Hw.
        pose proof (pow2_pos (List.length rest - 1)). lia. }
      destruct (Nat.ltb_spec h 2); [lia|]. destruct (Nat.ltb_spec w 2); [lia|].
      cbn [orb bind].
      rewrite (IH (S i) (last cs ic) n (h / 2) (w / 2)); try assumption; try lia.
      * rewrite !half_pow2, <- Hk. reflexivity.
      * apply half_ge_pow2. now rewrite <- Hk.
      * apply half_ge_pow2. now rewrite <- Hk.
      * rewrite !half_pow2, <- Hk. exact Hmode.
Qed.

(** The stages from position [i] on, given anything: they raise, or return
    the extent halved once per pooling; an input of another channel count
    gets through only where there is no unit to meet it. *)
Lemma stages_forward_cases (len : nat) (channels : list (list nat)) :
  forall i ic n c h w,
    1 <= ic -> positive_table channels ->
    i + List.length channels = len ->
    (exists e,
        Sequential_forward (Sequential_forward (StageModule_forward training))
          (stages_of odd_pointwise len i channels ic) [n; c; h; w] = Raise e)
    \/ (exists c',
          Sequential_forward (Sequential_forward (StageModule_forward training))
            (stages_of odd_pointwise len i channels ic) [n; c; h; w]
          = Ok [n; c';
                h / 2 ^ (List.length channels - 1);
                w / 2 ^ (List.length channels - 1)]
          /\ (c = ic -> c' = channels_out channels ic)
          /\ (c <> ic -> c' = c /\ channels_out channels ic = ic)).
Proof.
  induction channels as [|cs rest IH]; intros i ic n c h w Hic Hpos Hlen.
  - right. exists c. cbn [stages_of Sequential_forward channels_out].
    change (2 ^ (@List.length (list nat) [] - 1)) with 1.
    rewrite !Nat.div_1_r. repeat split; auto.
  - apply Forall_cons_iff in Hpos. destruct Hpos as [Hcs Hpos].
    cbn [stages_of channels_out]. rewrite Sequential_forward_cons.
    rewrite Sequential_forward_app.
    replace (List.length (cs :: rest) - 1) with (List.length rest)
      by (cbn [List.length]; lia).
    cbn [List.length] in Hlen.
    pose proof (last_pos cs ic Hcs Hic) as Hlast.
    destruct (units_forward_cases (List.length cs) cs 0 ic n c h w Hic Hcs)
      as [(e & ->)|(c1 & -> & Hsame & Hother)];
      [left; eexists; reflexivity|].
    cbn [bind].
    destruct rest as [|cs' rest'].
    + rewrite pool_of_absent by (cbn [List.length] in Hlen; lia).
      right. exists c1.
      cbn [stages_of Sequential_forward channels_out bind].
      change (2 ^ @List.length (list nat) []) with 1.
      rewrite !Nat.div_1_r.
      split; [reflexivity|]. split; [exact Hsame|exact Hother].
    + set (rest := cs' :: rest') in *.
      assert (List.length rest = S (List.length rest - 1)) as Hk
        by (subst rest; cbn [List.length]; lia).
      rewrite pool_of_forward by lia.
      destruct (c1 =? 0); [left; eexists; reflexivity|].
      destruct ((h <? 2) || (w <? 2)); [left; eexists; reflexivity|].
      cbn [bind].
      destruct (IH (S i) (last cs ic) n c1 (h / 2) (w / 2) Hlast Hpos ltac:(lia))
        as [(e & ->)|(c2 & -> & Hsame2 & Hother2)];
        [left; eexists; reflexivity|].
      right. exists c2. rewrite !half_pow2, <- Hk.
      split; [reflexivity|]. split.
      * intros E. apply Hsame2. now apply Hsame.
      * intros E. destruct (Hother E) as [-> Elast].
        destruct Hother2 as [-> Eout]; [congruence|]. split; congruence.
Qed.

End StageForward.

(** X4: the feature stages halve the extent once per pooling operator, that
    is once per stage but the last, rounding down, and leave unit after
    unit the channel count of the last entry of the table: for a table
    without a zero count, an input with [in_channels] >= 1 channels and an
    extent of at least 2 ^ pools comes out with the extent divided by
    2 ^ pools, in evaluation mode always and in training mode when that
    leaves more than one value per channel. *)
Theorem features_forward_halves (channels : list (list nat)) (odd_pointwise : bool)
    (avg_pool_size : nat) (cls_activ : bool) (in_channels num_classes : nat)
    (mode : bool) (n h w : nat) :
  1 <= in_channels ->
  positive_table channels ->
  2 ^ pools channels <= h ->
  2 ^ pools channels <= w ->
  (mode = true -> 2 <= n * (h / 2 ^ pools channels) * (w / 2 ^ pools channels)) ->
  features_forward
    (train mode (DarkNet_init channels odd_pointwise avg_pool_size cls_activ
                   in_channels num_classes)) [n; in_channels; h; w]
  = Ok [n; last (List.concat channels) in_channels;
        h / 2 ^ pools channels; w / 2 ^ pools channels].
Proof.
  intros Hic Hpos Hh Hw Hmode. unfold features_forward.
  rewrite DarkNet_init_closed.
  cbn [train features training]. rewrite <- channels_out_last.
  now apply stages_forward_ok.
Qed.

Lemma features_forward_halves_witness :
  features_forward
    (train true (DarkNet_init [[16]; [32; 64]; [128]] true 5 false 3 10))
    [2; 3; 23; 40]
  = Ok [2; 128; 5; 10].
Proof.
  apply (features_forward_halves [[16]; [32; 64]; [128]] true 5 false 3 10 true
           2 23 40); try (cbn; lia).
  repeat constructor.
Defined.
(** ** Forward pass of the whole network *)

Lemma window_stride1 (h k : nat) :
  window h k 1 0
  = if k =? 0 then Raise (RuntimeError "empty window or stride")
    else if h <? k then Raise (RuntimeError "output size is too small")
         else Ok (h - k + 1).
Proof.
  unfold window. cbn [Nat.eqb orb]. rewrite orb_false_r.
  replace (h + 2 * 0) with h by lia.
  destruct (k =? 0); [reflexivity|]. destruct (h <? k); [reflexivity|].
  now rewrite Nat.div_1_r.
Qed.

Lemma final_pool_forward (aps n c h w : nat) (y : list nat) :
  1 <= c ->
  (pool_forward aps 1 [n; c; h; w] = Ok y
   <-> 1 <= aps /\ aps <= h /\ aps <= w /\ y = [n; c; h - aps + 1; w - aps + 1]).
Proof.
  intros Hc. unfold pool_forward, pool_shape.
  destruct (Nat.eqb_spec c 0); [lia|]. rewrite !window_stride1.
  destruct (Nat.eqb_spec aps 0);
    [split; [discriminate|intros (H & _); lia]|].
  destruct (Nat.ltb_spec h aps);
    [split; [discriminate|intros (_ & H' & _); lia]|].
  destruct (Nat.ltb_spec w aps);
    [split; [discriminate|intros (_ & _ & H' & _); lia]|].
  cbn [bind Datatypes.app]. split.
  - intros E. injection E as <-. repeat split; lia.
  - intros (_ & _ & _ & ->). reflexivity.
Qed.

Lemma head_forward (aps : nat) (cls_activ : bool) (ic nc n c h w : nat)
    (y : list nat) :
  1 <= ic ->
  (Sequential_forward OutputModule_forward (output_of aps cls_activ ic nc)
     [n; c; h; w] = Ok y
   <-> c = ic /\ 1 <= nc /\ 1 <= aps /\ aps <= h /\ aps <= w
       /\ y = [n; nc; h - aps + 1; w - aps + 1]).
Proof.
  intros Hic. rewrite head_forward_steps.
  unfold Conv2d_forward, Conv2d_shape.
  cbn [nn.in_channels nn.out_channels nn.kernel_size nn.stride nn.padding].
  rewrite !window_pointwise.
  destruct (Nat.eqb_spec nc 0) as [->|Hnc];
    [split; [discriminate|intros (_ & H & _); lia]|].
  destruct (Nat.eqb_spec c ic) as [->|Hc];
    [|split; [discriminate|intros (E & _); contradiction]].
  destruct (Nat.eqb_spec h 0) as [->|Hh];
    [split; [discriminate|intros (_ & _ & ? & ? & _); lia]|].
  destruct (Nat.eqb_spec w 0) as [->|Hw];
    [split; [discriminate|intros (_ & _ & ? & _ & ? & _); lia]|].
  destruct (Nat.eqb_spec ic 0); [lia|].
  cbn [bind Datatypes.app]. rewrite final_pool_forward by lia.
  split; [intros (? & ? & ? & ?)|intros (_ & _ & ? & ? & ? & ?)];
    repeat split; auto; lia.
Qed.

Lemma view_flat_4d (n c a b : nat) (y : list nat) :
  view_flat [n; c; a; b] = Ok y
  <-> 1 <= n /\ 1 <= c /\ 1 <= a /\ 1 <= b /\ y = [n; c * (a * b)].
Proof.
  unfold view_flat. cbn [fold_right]. rewrite Nat.mul_1_r.
  destruct (Nat.eqb_spec (n * (c * (a * b))) 0) as [E|E].
  - split; [discriminate|]. intros (? & ? & ? & ? & _).
    apply Nat.eq_mul_0 in E. destruct E as [E|E]; [lia|].
    apply Nat.eq_mul_0 in E. destruct E as [E|E]; [lia|].
    apply Nat.eq_mul_0 in E. lia.
  - split.
    + intros E'. injection E' as <-.
      assert (n <> 0 /\ c <> 0 /\ a <> 0 /\ b <> 0) by (repeat split; intros ->; lia).
      repeat split; lia.
    + intros (_ & _ & _ & _ & ->). reflexivity.
Qed.

Lemma channels_out_pos (channels : list (list nat)) :
  forall ic, positive_table channels -> 1 <= ic -> 1 <= channels_out channels ic.
Proof.
  induction channels as [|cs rest IH]; intros ic Hpos Hic; [exact Hic|].
  apply Forall_cons_iff in Hpos. destruct Hpos as [Hcs Hpos].
  cbn [channels_out]. apply IH; [exact Hpos|now apply last_pos].
Qed.

Section Forward.

Variables (channels : list (list nat)) (odd_pointwise : bool)
          (avg_pool_size : nat) (cls_activ : bool)
          (in_channels num_classes : nat) (mode : bool).

Hypothesis in_channels_pos : 1 <= in_channels.
Hypothesis table_pos : positive_table channels.

Let network : DarkNet :=
  train mode (DarkNet_init channels odd_pointwise avg_pool_size cls_activ
                in_channels num_classes).

(** What a result of [forward] tells, in either mode. *)
Lemma forward_sound (n c h w : nat) (y : list nat) :
  forward network [n; c; h; w] = Ok y ->
  c = in_channels /\ 1 <= n /\ 1 <= num_classes
  /\ 1 <= avg_pool_size
  /\ avg_pool_size <= h / 2 ^ pools channels
  /\ avg_pool_size <= w / 2 ^ pools channels
  /\ y = [n; num_classes
             * ((h / 2 ^ pools channels - avg_pool_size + 1)
                * (w / 2 ^ pools channels - avg_pool_size + 1))].
Proof.
  unfold network, forward, features_forward. rewrite DarkNet_init_closed.
  cbn [train features output training]. intros Hok.
  destruct (stages_forward_cases odd_pointwise mode (List.length channels) channels
              0 in_channels n c h w in_channels_pos table_pos eq_refl)
    as [(e & E)|(c' & E & Hsame & Hother)];
    rewrite E in Hok; cbn [bind] in Hok; [discriminate|].
  fold (pools channels) in Hok.
  destruct (Sequential_forward OutputModule_forward _ _) as [x|e] eqn:Ehead;
    cbn [bind] in Hok; [|discriminate].
  apply head_forward in Ehead;
    [|now apply channels_out_pos].
  destruct Ehead as (Ec & Hnc & Ha & Hah & Haw & ->).
  apply view_flat_4d in Hok. destruct Hok as (Hn & _ & _ & _ & ->).
  assert (c = in_channels) as ->.
  { destruct (Nat.eq_dec c in_channels) as [|Hne]; [assumption|].
    destruct (Hother Hne). congruence. }
  repeat split; assumption.
Qed.

(** When [forward] returns: the conditions of [forward_sound] and, in
    training mode, more than one value per channel at the last stage. *)
Lemma forward_complete (n h w : nat) :
  1 <= n -> 1 <= num_classes -> 1 <= avg_pool_size ->
  avg_pool_size <= h / 2 ^ pools channels ->
  avg_pool_size <= w / 2 ^ pools channels ->
  (mode = true ->
   2 <= n * (h / 2 ^ pools channels) * (w / 2 ^ pools channels)) ->
  forward network [n; in_channels; h; w]
  = Ok [n; num_classes
           * ((h / 2 ^ pools channels - avg_pool_size + 1)
              * (w / 2 ^ pools channels - avg_pool_size + 1))].
Proof.
  intros Hn Hnc Ha Hah Haw Hmode.
  pose proof (pow2_pos (pools channels)) as Hpos.
  assert (2 ^ pools channels <= h) as Hh.
  { destruct (Nat.lt_ge_cases h (2 ^ pools channels)) as [Hlt|]; [|assumption].
    rewrite (Nat.div_small _ _ Hlt) in Hah. lia. }
  assert (2 ^ pools channels <= w) as Hw.
  { destruct (Nat.lt_ge_cases w (2 ^ pools channels)) as [Hlt|]; [|assumption].
    rewrite (Nat.div_small _ _ Hlt) in Haw. lia. }
  unfold network, forward, features_forward. rewrite DarkNet_init_closed.
  cbn [train features output training].
  rewrite (stages_forward_ok odd_pointwise mode (List.length channels) channels
             0 in_channels n h w in_channels_pos table_pos eq_refl Hh Hw Hmode).
  cbn [bind]. fold (pools channels).
  set (h' := h / 2 ^ pools channels) in *.
  set (w' := w / 2 ^ pools channels) in *.
  assert (Sequential_forward OutputModule_forward
            (output_of avg_pool_size cls_activ
               (channels_out channels in_channels) num_classes)
            [n; channels_out channels in_channels; h'; w']
          = Ok [n; num_classes; h' - avg_pool_size + 1; w' - avg_pool_size + 1])
    as ->.
  { apply head_forward; [now apply channels_out_pos|]. repeat split; auto. }
  cbn [bind]. apply view_flat_4d. repeat split; lia.
Qed.

End Forward.

(** X5: when [forward] succeeds, and with what.  For a channel table
    without a zero count and [in_channels] >= 1, in evaluation mode, or in
    training mode with a batch or a pooling size of at least 2: [forward]
    returns a result on a 4D input exactly when the input has the network's
    [in_channels], the batch and the class count are not empty, and the
    pooling size of the head is at least 1 and fits the extent the stages
    leave; the result is then the batch size by [num_classes] times the
    number of positions of the pooling window.  On every other 4D input it
    raises. *)
Theorem forward_succeeds_iff (channels : list (list nat)) (odd_pointwise : bool)
    (avg_pool_size : nat) (cls_activ : bool) (in_channels num_classes : nat)
    (mode : bool) (n c h w : nat) (y : list nat) :
  1 <= in_channels ->
  positive_table channels ->
  mode = false \/ 2 <= n \/ 2 <= avg_pool_size ->
  let h' := h / 2 ^ pools channels in
  let w' := w / 2 ^ pools channels in
  forward (train mode (DarkNet_init channels odd_pointwise avg_pool_size cls_activ
                         in_channels num_classes)) [n; c; h; w] = Ok y
  <-> c = in_channels /\ 1 <= n /\ 1 <= num_classes
      /\ 1 <= avg_pool_size /\ avg_pool_size <= h' /\ avg_pool_size <= w'
      /\ y = [n; num_classes
                 * ((h' - avg_pool_size + 1) * (w' - avg_pool_size + 1))].
Proof.
  intros Hic Hpos Hmode h' w'. split.
  - now apply forward_sound.
  - intros (-> & Hn & Hnc & Ha & Hah & Haw & ->).
    apply forward_complete; try assumption.
    intros ->. fold h' w'.
    assert (1 <= h' /\ 1 <= w') as [Hh1 Hw1] by lia.
    assert (n * 1 * 1 <= n * h' * w') as Hn1
      by (apply Nat.mul_le_mono; [apply Nat.mul_le_mono|]; lia).
    assert (1 * h' * 1 <= n * h' * w') as Hh2
      by (apply Nat.mul_le_mono; [apply Nat.mul_le_mono|]; lia).
    destruct Hmode as [Hm|[Hn2|Ha2]]; [discriminate|lia|lia].
Qed.

Lemma forward_succeeds_iff_witness :
  forward (train true (DarkNet_init [[16]; [32; 64]; [128]] true 5 false 3 10))
    [1; 3; 23; 40]
  = Ok [1; 60].
Proof.
  apply (forward_succeeds_iff [[16]; [32; 64]; [128]] true 5 false 3 10 true
           1 3 23 40).
  - lia.
  - repeat constructor.
  - right. right. lia.
  - cbn. repeat split; lia.
Defined.
(** ** Input resolutions of the three variants *)








(** ** Parameter count in closed form *)

Lemma count_fold (l : list (list Z)) :
  forall z, fold_left (fun acc size => (acc + prod size)%Z) l z
            = (z + sumZ (map prod l))%Z.
Proof.
  induction l as [|x l IH]; intros z; cbn [fold_left map].
  - change (sumZ []) with 0%Z. lia.
  - rewrite IH. change (sumZ (prod x :: map prod l)) with (prod x + sumZ (map prod l))%Z.
    lia.
Qed.

Lemma weight_count_modules (net : DarkNet) :
  weight_count net = modules_parameters (named_modules net).
Proof.
  unfold weight_count, parameters, modules_parameters.
  rewrite count_fold. lia.
Qed.

Lemma sumZ_app (a b : list Z) : sumZ (a ++ b) = (sumZ a + sumZ b)%Z.
Proof.
  induction a as [|x a IH]; [reflexivity|].
  change (sumZ ((x :: a) ++ b)) with (x + sumZ (a ++ b))%Z.
  change (sumZ (x :: a)) with (x + sumZ a)%Z.
  rewrite IH. lia.
Qed.

Lemma modules_parameters_app (a b : list (string * Module)) :
  modules_parameters (a ++ b)%list
  = (modules_parameters a + modules_parameters b)%Z.
Proof.
  unfold modules_parameters. now rewrite flat_map_app, map_app, sumZ_app.
Qed.

Lemma modules_parameters_cons (nm : string) (m : Module) (l : list (string * Module)) :
  modules_parameters ((nm, m) :: l)
  = (sumZ (map prod (Module_parameters m)) + modules_parameters l)%Z.
Proof.
  change ((nm, m) :: l) with ([(nm, m)] ++ l)%list.
  rewrite modules_parameters_app. f_equal.
  unfold modules_parameters. cbn [flat_map snd]. now rewrite app_nil_r.
Qed.

Lemma unit_modules_parameters (prefix : string) (ic oc : nat) (pointwise : bool) :
  modules_parameters
    (StageModule_named_modules prefix (Unit (dark_convYxY ic oc pointwise)))
  = unit_parameters (conv (dark_convYxY ic oc pointwise)).
Proof.
  unfold modules_parameters, unit_parameters.
  destruct pointwise; cbn -[Z.mul Z.add Z.of_nat];
    change (Z.of_nat 1) with 1%Z; change (Z.of_nat 3) with 3%Z; lia.
Qed.

Lemma units_modules_parameters (odd_pointwise : bool) (n : nat) (prefix : string)
    (cs : list nat) :
  forall j ic,
    modules_parameters
      (flat_map (fun nm => StageModule_named_modules
                             (submodule_prefix prefix (fst nm)) (snd nm))
         (units_of odd_pointwise n j cs ic))
    = sumZ (map unit_parameters (unit_convs (units_of odd_pointwise n j cs ic))).
Proof.
  induction cs as [|oc cs IH]; intros j ic; [reflexivity|].
  cbn [units_of flat_map fst snd]. rewrite unit_convs_unit.
  rewrite modules_parameters_app, unit_modules_parameters, IH.
  reflexivity.
Qed.

Lemma stage_modules_parameters (odd_pointwise : bool) (n len i : nat)
    (prefix : string) (cs : list nat) (ic : nat) :
  modules_parameters
    (Sequential_named_modules StageModule_named_modules prefix
       (units_of odd_pointwise n 0 cs ic ++ pool_of len i)%list)
  = sumZ (map unit_parameters
            (unit_convs (units_of odd_pointwise n 0 cs ic ++ pool_of len i)%list)).
Proof.
  unfold Sequential_named_modules.
  rewrite modules_parameters_cons, flat_map_app, modules_parameters_app.
  rewrite units_modules_parameters, unit_convs_app, unit_convs_pool, app_nil_r.
  unfold pool_of. destruct (negb _); cbn; lia.
Qed.

Lemma stages_modules_parameters (odd_pointwise : bool) (len : nat) (prefix : string)
    (channels : list (list nat)) :
  forall i ic,
    modules_parameters
      (flat_map (fun nm => Sequential_named_modules StageModule_named_modules
                             (submodule_prefix prefix (fst nm)) (snd nm))
         (stages_of odd_pointwise len i channels ic))
    = sumZ (map unit_parameters
              (flat_map (fun s => unit_convs (snd s))
                 (stages_of odd_pointwise len i channels ic))).
Proof.
  induction channels as [|cs rest IH]; intros i ic; [reflexivity|].
  cbn [stages_of flat_map fst snd].
  rewrite modules_parameters_app, stage_modules_parameters, IH.
  now rewrite map_app, sumZ_app.
Qed.

Lemma head_modules_parameters (aps : nat) (cls_activ : bool) (ic nc : nat)
    (prefix : string) :
  modules_parameters
    (Sequential_named_modules OutputModule_named_modules prefix
       (output_of aps cls_activ ic nc))
  = ((Z.of_nat ic + 1) * Z.of_nat nc)%Z.
Proof.
  unfold modules_parameters, output_of.
  destruct cls_activ; cbn -[Z.mul Z.add Z.of_nat];
    change (Z.of_nat 1) with 1%Z; lia.
Qed.

(** X7: the number of trainable parameters, in closed form: each unit holds
    out * in * k * k convolution weights and 2 * out normalization
    parameters, and the head holds (in + 1) * num_classes, where [in] is
    the last entry of the channel table.  The activation and the poolings
    hold nothing, so the count is the same for every [avg_pool_size] and
    [cls_activ]. *)
Theorem weight_count_closed_form (channels : list (list nat)) (odd_pointwise : bool)
    (avg_pool_size : nat) (cls_activ : bool) (in_channels num_classes : nat) :
  let net := DarkNet_init channels odd_pointwise avg_pool_size cls_activ
               in_channels num_classes in
  weight_count net
  = (sumZ (map unit_parameters (feature_convs net))
     + (Z.of_nat (last (List.concat channels) in_channels) + 1)
       * Z.of_nat num_classes)%Z
  /\ forall avg_pool_size' cls_activ',
      weight_count (DarkNet_init channels odd_pointwise avg_pool_size' cls_activ'
                      in_channels num_classes)
      = weight_count net.
Proof.
  assert (forall aps ca,
             weight_count (DarkNet_init channels odd_pointwise aps ca
                             in_channels num_classes)
             = (sumZ (map unit_parameters
                        (flat_map (fun s => unit_convs (snd s))
                           (stages_of odd_pointwise (List.length channels) 0
                              channels in_channels)))
                + (Z.of_nat (last (List.concat channels) in_channels) + 1)
                  * Z.of_nat num_classes)%Z) as Hcount.
  { intros aps ca. rewrite weight_count_modules, DarkNet_init_closed.
    unfold named_modules. cbn [features output].
    rewrite modules_parameters_cons, modules_parameters_app.
    unfold Sequential_named_modules at 1. rewrite modules_parameters_cons.
    rewrite stages_modules_parameters, head_modules_parameters.
    rewrite channels_out_last. cbn [Module_parameters map sumZ fold_right]. lia. }
  intros net. split.
  - unfold net. rewrite Hcount. unfold feature_convs.
    now rewrite DarkNet_init_closed.
  - intros aps' ca'. unfold net. now rewrite !Hcount.
Qed.

(** ** Child names are never reused *)

Lemma append_cancel (p a b : string) : p ++ a = p ++ b -> a = b.
Proof.
  induction p as [|c p IH]; cbn [append]; intros E; [exact E|].
  injection E as E. auto.
Qed.

Lemma append_assoc (a b c : string) : (a ++ b) ++ c = a ++ (b ++ c).
Proof. induction a as [|x a IH]; cbn [append]; [reflexivity|]. now rewrite IH. Qed.

Lemma append_nil_r (a : string) : a ++ "" = a.
Proof. induction a as [|x a IH]; cbn [append]; [reflexivity|]. now rewrite IH. Qed.

Lemma numbered_names_NoDup (stem : string) (start len : nat) :
  NoDup (map (fun m => stem ++ fmt m) (seq start len)).
Proof.
  apply NoDup_map_NoDup_ForallPairs; [|apply seq_NoDup].
  intros x y _ _ E. apply append_cancel in E. now apply fmt_inj.
Qed.

Lemma units_of_key_list (odd_pointwise : bool) (n : nat) (cs : list nat) :
  forall j ic,
    nn.keys (units_of odd_pointwise n j cs ic)
    = map (fun m => "unit" ++ fmt m) (seq (j + 1) (List.length cs)).
Proof.
  induction cs as [|oc cs IH]; intros j ic; [reflexivity|].
  cbn [units_of nn.keys map fst List.length seq]. f_equal.
  change (map fst (units_of odd_pointwise n (S j) cs oc))
    with (nn.keys (units_of odd_pointwise n (S j) cs oc)).
  rewrite IH. now replace (S j + 1) with (S (j + 1)) by lia.
Qed.

Lemma stages_of_key_list (odd_pointwise : bool) (len : nat)
    (channels : list (list nat)) :
  forall i ic,
    nn.keys (stages_of odd_pointwise len i channels ic)
    = map (fun m => "stage" ++ fmt m) (seq (i + 1) (List.length channels)).
Proof.
  induction channels as [|cs rest IH]; intros i ic; [reflexivity|].
  cbn [stages_of nn.keys map fst List.length seq]. f_equal.
  change (map fst (stages_of odd_pointwise len (S i) rest (last cs ic)))
    with (nn.keys (stages_of odd_pointwise len (S i) rest (last cs ic))).
  rewrite IH. now replace (S i + 1) with (S (i + 1)) by lia.
Qed.

Lemma stage_keys_NoDup (odd_pointwise : bool) (n len i : nat) (cs : list nat)
    (ic : nat) :
  NoDup (nn.keys (units_of odd_pointwise n 0 cs ic ++ pool_of len i)%list).
Proof.
  rewrite keys_app. apply NoDup_app.
  - rewrite units_of_key_list. apply numbered_names_NoDup.
  - unfold pool_of. destruct (negb _); repeat constructor. intros [].
  - intros k Hk Hpool. unfold pool_of in Hpool.
    destruct (negb _); [|destruct Hpool].
    destruct Hpool as [<-|[]]. now apply pool_fresh in Hk.
Qed.

Lemma output_keys_NoDup (aps : nat) (cls_activ : bool) (ic nc : nat) :
  NoDup (nn.keys (output_of aps cls_activ ic nc)).
Proof.
  unfold output_of.
  destruct cls_activ; cbn; repeat constructor; cbn; intuition discriminate.
Qed.

(** X8: within [features], within every stage and within [output] no two
    children have the same name: for every channel table each
    [add_module] call of the constructor adds a module and none replaces
    one, so the network has one stage per row of the table and one unit
    per entry. *)
Theorem child_names_distinct (channels : list (list nat)) (odd_pointwise : bool)
    (avg_pool_size : nat) (cls_activ : bool) (in_channels num_classes : nat) :
  let net := DarkNet_init channels odd_pointwise avg_pool_size cls_activ
               in_channels num_classes in
  NoDup (nn.keys (features net))
  /\ Forall (fun s => NoDup (nn.keys (snd s))) (features net)
  /\ NoDup (nn.keys (output net))
  /\ List.length (features net) = List.length channels
  /\ List.length (feature_convs net) = List.length (List.concat channels).
Proof.
  intros net. unfold net. rewrite DarkNet_init_closed. cbn [features output].
  split; [rewrite stages_of_key_list; apply numbered_names_NoDup|].
  split.
  { apply Forall_forall. intros [sname stage] Hin.
    apply stages_of_in in Hin. destruct Hin as (i & cs & ic' & _ & ->).
    apply stage_keys_NoDup. }
  split; [apply output_keys_NoDup|].
  split; [apply stages_of_length|].
  pose proof (stages_of_out odd_pointwise (List.length channels) channels 0
                in_channels) as E.
  apply (f_equal (@List.length nat)) in E. rewrite length_map in E.
  unfold feature_convs. cbn [features]. exact E.
Qed.

(** ** Module paths are unique *)

Lemma string_of_uint_dot_free (d : uint) : dot_free (NilEmpty.string_of_uint d).
Proof. unfold dot_free. induction d; simpl; auto. Qed.

Lemma fmt_dot_free (n : nat) : dot_free (fmt n).
Proof. apply string_of_uint_dot_free. Qed.

Lemma numbered_dot_free (stem : string) (m : nat) :
  dot_free stem -> dot_free (stem ++ fmt m).
Proof.
  unfold dot_free. intros H. now rewrite has_char_app, H, fmt_dot_free.
Qed.

(** A dot-free name followed by nothing or by a dotted rest is read back
    in one way only. *)
Lemma dot_split (k1 : string) :
  forall k2 r1 r2,
    dot_free k1 -> dot_free k2 ->
    (r1 = "" \/ exists r', r1 = "." ++ r') ->
    (r2 = "" \/ exists r', r2 = "." ++ r') ->
    k1 ++ r1 = k2 ++ r2 ->
    k1 = k2 /\ r1 = r2.
Proof.
  unfold dot_free.
  induction k1 as [|a k1 IH]; intros [|b k2] r1 r2 H1 H2 Hr1 Hr2 E;
    cbn [append] in E.
  - auto.
  - exfalso. destruct Hr1 as [->|(r' & ->)]; [discriminate E|].
    injection E as <- _. discriminate H2.
  - exfalso. destruct Hr2 as [->|(r' & ->)]; [discriminate E|].
    injection E as -> _. discriminate H1.
  - injection E as -> E. cbn [has_char] in H1, H2.
    apply orb_false_iff in H1, H2.
    destruct (IH k2 r1 r2 (proj2 H1) (proj2 H2) Hr1 Hr2 E) as [-> ->]. auto.
Qed.

Lemma submodule_prefix_dot (p k : string) :
  p <> "" -> submodule_prefix p k = p ++ "." ++ k.
Proof.
  intros Hp. unfold submodule_prefix.
  destruct (String.eqb_spec p ""); [contradiction|reflexivity].
Qed.

Lemma submodule_prefix_nonempty (p k : string) :
  p <> "" -> submodule_prefix p k <> "".
Proof.
  intros Hp. rewrite submodule_prefix_dot by exact Hp.
  destruct p; [contradiction|discriminate].
Qed.

Lemma below_refl (p : string) : below p p.
Proof. exists "". split; [now rewrite append_nil_r|now left]. Qed.

Lemma below_child (p k s : string) :
  p <> "" -> below (submodule_prefix p k) s -> below p s /\ s <> p.
Proof.
  intros Hp (r & -> & _). rewrite submodule_prefix_dot by exact Hp.
  rewrite append_assoc. split.
  - eexists. split; [reflexivity|]. right. eexists. reflexivity.
  - intros E. rewrite <- (append_nil_r p) in E at 2.
    apply append_cancel in E. discriminate E.
Qed.

Lemma below_children_disjoint (p k1 k2 s : string) :
  p <> "" -> dot_free k1 -> dot_free k2 ->
  below (submodule_prefix p k1) s -> below (submodule_prefix p k2) s ->
  k1 = k2.
Proof.
  intros Hp H1 H2 (r1 & -> & Hr1) (r2 & E & Hr2).
  rewrite !submodule_prefix_dot in E by exact Hp.
  rewrite !append_assoc in E. apply append_cancel in E.
  cbn [append] in E. injection E as E.
  now destruct (dot_split k1 k2 r1 r2 H1 H2 Hr1 Hr2 E).
Qed.

Section Paths.

Variable A : Type.
Variable well_named : A -> Prop.
Variable child : string -> A -> list (string * Module).

Hypothesis child_paths :
  forall p m, p <> "" -> well_named m ->
              Forall (below p) (names (child p m)) /\ NoDup (names (child p m)).

Lemma children_paths (p : string) (self : nn.Sequential A) :
  p <> "" ->
  NoDup (nn.keys self) ->
  Forall dot_free (nn.keys self) ->
  Forall well_named (map snd self) ->
  (forall s,
      In s (names (flat_map (fun nm => child (submodule_prefix p (fst nm)) (snd nm))
                     self)) ->
      exists k, In k (nn.keys self) /\ below (submodule_prefix p k) s)
  /\ NoDup (names (flat_map (fun nm => child (submodule_prefix p (fst nm)) (snd nm))
                     self)).
Proof.
  intros Hp. induction self as [|[k m] rest IH]; intros Hkeys Hdots Hwell.
  - split; [intros s []|constructor].
  - cbn [nn.keys map fst snd] in Hkeys, Hdots, Hwell.
    apply NoDup_cons_iff in Hkeys. destruct Hkeys as [Hfresh Hkeys].
    apply Forall_cons_iff in Hdots. destruct Hdots as [Hdot Hdots].
    apply Forall_cons_iff in Hwell. destruct Hwell as [Hm Hwell].
    destruct (IH Hkeys Hdots Hwell) as [IHin IHnd].
    destruct (child_paths (submodule_prefix p k) m
                (submodule_prefix_nonempty p k Hp) Hm) as [Hbelow Hnd].
    rewrite Forall_forall in Hbelow.
    cbn [flat_map fst snd]. unfold names in *. rewrite map_app. split.
    + intros s Hs. apply in_app_or in Hs. destruct Hs as [Hs|Hs].
      * exists k. split; [now left|]. now apply Hbelow.
      * destruct (IHin s Hs) as (k' & Hk' & Hb). exists k'. split; [now right|exact Hb].
    + apply NoDup_app; [exact Hnd|exact IHnd|].
      intros s Hs Hs'. destruct (IHin s Hs') as (k' & Hk' & Hb).
      rewrite Forall_forall in Hdots.
      assert (k = k') as <-
          by (eapply (below_children_disjoint p k k' s); auto).
      contradiction.
Qed.

Lemma Sequential_paths (p : string) (self : nn.Sequential A) :
  p <> "" ->
  NoDup (nn.keys self) /\ Forall dot_free (nn.keys self)
  /\ Forall well_named (map snd self) ->
  Forall (below p) (names (Sequential_named_modules child p self))
  /\ NoDup (names (Sequential_named_modules child p self)).
Proof.
  intros Hp (Hkeys & Hdots & Hwell).
  destruct (children_paths p self Hp Hkeys Hdots Hwell) as [Hin Hnd].
  unfold Sequential_named_modules. cbn [names map fst].
  fold (names (flat_map (fun nm => child (submodule_prefix p (fst nm)) (snd nm)) self)).
  split.
  - constructor; [apply below_refl|].
    apply Forall_forall. intros s Hs. destruct (Hin s Hs) as (k & _ & Hb).
    now apply (below_child p k s Hp).
  - constructor; [|exact Hnd].
    intros Hs. destruct (Hin p Hs) as (k & _ & Hb).
    now apply (below_child p k p Hp) in Hb.
Qed.

End Paths.

Lemma StageModule_paths (p : string) (m : StageModule) :
  p <> "" -> True ->
  Forall (below p) (names (StageModule_named_modules p m))
  /\ NoDup (names (StageModule_named_modules p m)).
Proof.
  intros Hp _. destruct m as [u|pl]; cbn [StageModule_named_modules
    DarkConv_named_modules names map fst].
  - rewrite !submodule_prefix_dot by exact Hp. split.
    + repeat constructor; try apply below_refl;
        (eexists; split; [reflexivity|right; eexists; reflexivity]).
    + assert (forall r, p ++ r = p -> r = "") as Hne.
      { intros r E. rewrite <- (append_nil_r p) in E at 2.
        now apply append_cancel in E. }
      cbn [append].
      repeat constructor;
        (let E := fresh "E" in
         intros E; cbn [In] in E; repeat (destruct E as [E|E]);
         first [ contradiction
               | apply Hne in E; discriminate E
               | apply append_cancel in E; discriminate E ]).
  - split; repeat constructor; [apply below_refl|intros []].
Qed.

Lemma OutputModule_paths (p : string) (m : OutputModule) :
  p <> "" -> True ->
  Forall (below p) (names (OutputModule_named_modules p m))
  /\ NoDup (names (OutputModule_named_modules p m)).
Proof.
  intros Hp _.
  destruct m; cbn; (split; repeat constructor; [apply below_refl|intros []]).
Qed.

Lemma numbered_keys_dot_free (stem : string) (start len : nat) :
  dot_free stem ->
  Forall dot_free (map (fun m => stem ++ fmt m) (seq start len)).
Proof.
  intros Hstem. apply Forall_forall. intros k Hk.
  apply in_map_iff in Hk. destruct Hk as (m & <- & _).
  now apply numbered_dot_free.
Qed.

Lemma stage_keys_dot_free (odd_pointwise : bool) (n len i : nat) (cs : list nat)
    (ic : nat) :
  Forall dot_free (nn.keys (units_of odd_pointwise n 0 cs ic ++ pool_of len i)%list).
Proof.
  rewrite keys_app. apply Forall_app. split.
  - rewrite units_of_key_list. now apply numbered_keys_dot_free.
  - unfold pool_of. destruct (negb _); repeat constructor.
    now apply (numbered_dot_free "pool").
Qed.

Lemma stage_paths (p : string) (stage : Stage) :
  p <> "" ->
  NoDup (nn.keys stage) /\ Forall dot_free (nn.keys stage)
  /\ Forall (fun _ => True) (map snd stage) ->
  Forall (below p) (names (Sequential_named_modules StageModule_named_modules p stage))
  /\ NoDup (names (Sequential_named_modules StageModule_named_modules p stage)).
Proof.
  exact (Sequential_paths StageModule (fun _ => True) StageModule_named_modules
           StageModule_paths p stage).
Qed.

Lemma features_paths (channels : list (list nat)) (odd_pointwise : bool)
    (in_channels : nat) :
  let feats := stages_of odd_pointwise (List.length channels) 0 channels
                 in_channels in
  Forall (below "features")
    (names (Sequential_named_modules
              (Sequential_named_modules StageModule_named_modules) "features" feats))
  /\ NoDup
       (names (Sequential_named_modules
                 (Sequential_named_modules StageModule_named_modules) "features"
                 feats)).
Proof.
  intros feats.
  apply (Sequential_paths Stage
           (fun stage => NoDup (nn.keys stage) /\ Forall dot_free (nn.keys stage)
                         /\ Forall (fun _ => True) (map snd stage))
           (Sequential_named_modules StageModule_named_modules) stage_paths);
    [discriminate|].
  unfold feats. rewrite stages_of_key_list.
  split; [apply numbered_names_NoDup|].
  split; [now apply numbered_keys_dot_free|].
  apply Forall_forall. intros stage Hin.
  apply in_map_iff in Hin. destruct Hin as ([sname stage'] & <- & Hin).
  apply stages_of_in in Hin. destruct Hin as (i & cs & ic' & _ & ->).
  cbn [snd]. split; [apply stage_keys_NoDup|].
  split; [apply stage_keys_dot_free|].
  apply Forall_forall. auto.
Qed.

Lemma output_paths (aps : nat) (cls_activ : bool) (ic nc : nat) :
  Forall (below "output")
    (names (Sequential_named_modules OutputModule_named_modules "output"
              (output_of aps cls_activ ic nc)))
  /\ NoDup
       (names (Sequential_named_modules OutputModule_named_modules "output"
                 (output_of aps cls_activ ic nc))).
Proof.
  apply (Sequential_paths OutputModule (fun _ => True) OutputModule_named_modules
           OutputModule_paths); [discriminate|].
  split; [apply output_keys_NoDup|]. split.
  - unfold output_of. destruct cls_activ; repeat constructor.
  - apply Forall_forall. auto.
Qed.

Lemma named_modules_NoDup (channels : list (list nat)) (odd_pointwise : bool)
    (avg_pool_size : nat) (cls_activ : bool) (in_channels num_classes : nat) :
  NoDup (names (named_modules
                  (DarkNet_init channels odd_pointwise avg_pool_size cls_activ
                     in_channels num_classes))).
Proof.
  rewrite DarkNet_init_closed. unfold named_modules. cbn [features output].
  change (submodule_prefix "" "features") with "features".
  change (submodule_prefix "" "output") with "output".
  destruct (features_paths channels odd_pointwise in_channels) as [Fbelow Fnd].
  destruct (output_paths avg_pool_size cls_activ
              (channels_out channels in_channels) num_classes) as [Obelow Ond].
  rewrite Forall_forall in Fbelow, Obelow.
  cbn [names map fst]. unfold names in *. rewrite map_app.
  constructor.
  - intros Hin. apply in_app_or in Hin.
    destruct Hin as [Hin|Hin];
      [apply Fbelow in Hin|apply Obelow in Hin];
      destruct Hin as (r & E & _); discriminate E.
  - apply NoDup_app; [exact Fnd|exact Ond|].
    intros s HF HO. apply Fbelow in HF. apply Obelow in HO.
    destruct HF as (r & -> & _). destruct HO as (r' & E & _).
    discriminate E.
Qed.

(** X9: no two modules of a network have the same path: [named_modules] yields
    every dotted name once, for every channel table, so a path names one
    module, and one parameter tensor per parameter name. *)
Theorem module_paths_unique (channels : list (list nat)) (odd_pointwise : bool)
    (avg_pool_size : nat) (cls_activ : bool) (in_channels num_classes : nat) :
  NoDup (names (named_modules
                  (DarkNet_init channels odd_pointwise avg_pool_size cls_activ
                     in_channels num_classes))).
Proof. apply named_modules_NoDup. Qed.

(** ** Each parameter is initialized once *)

Lemma init_module_names (name : string) (m : Module) :
  NoDup (map fst (init_module name m))
  /\ forall np, In np (map fst (init_module name m)) -> fst np = name.
Proof.
  destruct m as [| | |c| | | |]; cbn [init_module map];
    try (split; [constructor|intros ? []]; fail).
  destruct (nn.bias c); cbn [map fst]; split.
  - repeat constructor; cbn [In]; intuition discriminate.
  - intros np [<-|[<-|[]]]; reflexivity.
  - repeat constructor. intros [].
  - intros np [<-|[]]. reflexivity.
Qed.

Lemma init_calls_once (l : list (string * Module)) :
  NoDup (names l) ->
  NoDup (map fst (flat_map (fun nm => init_module (fst nm) (snd nm)) l))
  /\ forall np,
      In np (map fst (flat_map (fun nm => init_module (fst nm) (snd nm)) l)) ->
      In (fst np) (names l).
Proof.
  induction l as [|[name m] l IH]; intros Hnd.
  - split; [constructor|intros ? []].
  - cbn [names map fst] in Hnd. apply NoDup_cons_iff in Hnd.
    destruct Hnd as [Hfresh Hnd]. destruct (IH Hnd) as [IHnd IHin].
    destruct (init_module_names name m) as [Hm Hname].
    cbn [flat_map fst snd]. rewrite map_app. split.
    + apply NoDup_app; [exact Hm|exact IHnd|].
      intros np Hnp Hnp'. apply Hname in Hnp. apply IHin in Hnp'.
      rewrite Hnp in Hnp'. contradiction.
    + intros np Hnp. apply in_app_or in Hnp. cbn [names map fst].
      destruct Hnp as [Hnp|Hnp]; [left; symmetry; now apply Hname|right; now apply IHin].
Qed.

(** X10: the initialization pass never initializes a parameter twice: its calls
    are on pairwise different (module path, parameter) pairs, so the
    initializer C7 names for a parameter is the only one applied to it and
    none is overwritten by a later call. *)
Theorem init_params_once (channels : list (list nat)) (odd_pointwise : bool)
    (avg_pool_size : nat) (cls_activ : bool) (in_channels num_classes : nat) :
  NoDup (initialized
           (DarkNet_init channels odd_pointwise avg_pool_size cls_activ
              in_channels num_classes)).
Proof.
  unfold initialized, _init_params.
  apply init_calls_once, named_modules_NoDup.
Qed.
